(** * wm_mecanum_cmd: velocity command to mecanum wheel speeds

    A shallow embedding of [src/wm_mecanum_cmd_node.py] (the command path)
    and [src/wm_mecanum_cmd_test.py] (the feedback path), and the properties
    of the clamping policy and of the inverse-kinematics transform.

    Python floats are read as real numbers: [sqrt], [sin], [cos], [abs] are
    the functions of the Standard Library's reals, [atan2] is defined below.
    Rounding, signed zeros, infinities and NaN are outside this model.
    What Python raises is kept: [ZeroDivisionError] at a division by zero
    and [OverflowError] at a power whose result leaves the range of a float.
    A fallible expression lives in the error monad [py]. *)

From Stdlib Require Import Reals Lra Lia List String ZArith.
From ExtLib Require Import Structures.Monad Data.Monads.EitherMonad.
Import ListNotations.
Import MonadNotation.

Local Open Scope string_scope.
Local Open Scope R_scope.
Local Open Scope monad_scope.

(** ** Python values and exceptions *)

Inductive PyError : Type :=
| ZeroDivisionError
| OverflowError.

(** A computation that returns an [A] or raises. *)
Definition py (A : Type) : Type := sum PyError A.

#[global] Instance Monad_py : Monad py := Monad_either PyError.

Definition raise {A : Type} (e : PyError) : py A := inl e.

(** [a / b] on floats: Python raises when the divisor is zero. *)
Definition py_div (a b : R) : py R :=
  if Req_dec_T b 0 then raise ZeroDivisionError else ret (a / b).

(** The largest finite float, [(2 - 2^-52) * 2^1023]. *)
Definition float_max : R := (2 - / 2 ^ 52) * 2 ^ 1023.

(** [a ** n] on a float: Python raises when the result is out of range. *)
Definition py_pow (a : R) (n : nat) : py R :=
  if Rgt_dec (Rabs (a ^ n)) float_max then raise OverflowError
  else ret (a ^ n).

(** [math.atan2(y, x)]: the angle of the point [(x, y)], in (-pi, pi];
    [atan2(0, 0)] is [0]. *)
Definition atan2 (y x : R) : R :=
  if Rlt_dec 0 x then atan (y / x)
  else if Rlt_dec x 0 then
    if Rle_dec 0 y then atan (y / x) + PI else atan (y / x) - PI
  else
    if Rlt_dec 0 y then PI / 2
    else if Rlt_dec y 0 then - (PI / 2)
    else 0.

(** [l[k] = v] on a list of length above [k]. *)
Fixpoint setitem (l : list R) (k : nat) (v : R) : list R :=
  match l, k with
  | [], _ => []
  | _ :: t, O => v :: t
  | h :: t, S k' => h :: setitem t k' v
  end.

(** [l[k]] *)
Definition getitem (l : list R) (k : nat) : R := nth k l 0.

(** [m[i][j]] *)
Definition getitem2 (m : list (list R)) (i j : nat) : R :=
  getitem (nth i m []) j.

(** [for k in range(n): w = body k w], where the body may raise. *)
Definition for_range (n : nat) (body : nat -> list R -> py (list R))
    (w : list R) : py (list R) :=
  fold_left (fun acc k => w' <- acc ;; body k w') (seq 0 n) (ret w).

(** ** The parameter server

    [rospy.get_param(name, default)] returns the stored value when the name
    is set and the default otherwise. The parameters this node reads are
    numbers, read here as reals ([float(...)] is then the identity). *)

Definition ParamServer : Type := list (string * R).

Fixpoint get_param (ps : ParamServer) (name : string) (default : R) : R :=
  match ps with
  | [] => default
  | (n, v) :: rest => if String.eqb n name then v else get_param rest name default
  end.

(** ** Messages *)

(** geometry_msgs/Vector3 *)
Record Vector3 : Type := mkVector3 { x : R; y : R; z : R }.

(** geometry_msgs/Twist *)
Record Twist : Type := mkTwist { linear : Vector3; angular : Vector3 }.

Definition twist_of (vx vy wz : R) : Twist :=
  mkTwist (mkVector3 vx vy 0) (mkVector3 0 0 wz).

(** roboteq_msgs/Command *)
Record Command : Type := mkCommand { mode : Z; setpoint : R }.

(** roboteq_msgs/Feedback, the field the feedback path fills. *)
Record Feedback : Type := mkFeedback { measured_velocity : R }.

(** ** wm_mecanum_cmd_node.py *)

Module Node.

Record MecanumCmd : Type := mkMecanumCmd {
  alpha : R;
  beta : R;
  radius : R;
  maxLinearVelocity : R;
  maxAngularVelocity : R;
  gb_ratio : R
}.

(** [MecanumCmd.__init__]: read the six parameters, with their defaults.
    The only fallible expression is [pi/divisor]. *)
Definition init (ps : ParamServer) : py MecanumCmd :=
  let alpha := get_param ps "alpha" 0.31 in
  let beta := get_param ps "beta" 0.30 in
  let radius := get_param ps "wheel_radius" 0.075 in
  let maxLinearVelocity := get_param ps "max_linear_vel" 1 in
  let divisor := get_param ps "angular_vel_div" 6 in
  maxAngularVelocity <- py_div PI divisor ;;
  let gb_ratio := get_param ps "gearbox_ratio" 15.0 in
  ret (mkMecanumCmd alpha beta radius maxLinearVelocity
                    maxAngularVelocity gb_ratio).

(** The matrix [J] of [InverseKinematics]. *)
Definition J (self : MecanumCmd) : list (list R) :=
  [ [1; -1; -1 * (alpha self + beta self)];
    [1;  1; (alpha self + beta self)];
    [1;  1; -1 * (alpha self + beta self)];
    [1; -1; (alpha self + beta self)] ].

(** [MecanumCmd.InverseKinematics] *)
Definition InverseKinematics (self : MecanumCmd) (xVel yVel yawVel : R)
    : py (list R) :=
  let J := J self in
  let w := [0; 0; 0; 0] in
  for_range (List.length w) (fun k w =>
    inv <- py_div 1 (radius self) ;;
    ret (setitem w k
           ((- gb_ratio self) / 2 * ((-1) ^ k) * inv *
            (getitem2 J k 0 * xVel + getitem2 J k 1 * yVel
             + getitem2 J k 2 * yawVel)))) w.

(** The locals of [callback], each as a function of the node and of the
    message. The two squares of line 51 may raise. *)
Definition callback_vLinear (self : MecanumCmd) (twist : Twist) : py R :=
  sx <- py_pow (x (linear twist)) 2 ;;
  sy <- py_pow (y (linear twist)) 2 ;;
  let vLinear := sqrt (sx + sy) in
  ret (if Rgt_dec vLinear (maxLinearVelocity self)
       then maxLinearVelocity self
       else vLinear).

Definition callback_Heading (twist : Twist) : R :=
  atan2 (y (linear twist)) (x (linear twist)).

Definition callback_xVel (self : MecanumCmd) (twist : Twist) : py R :=
  vLinear <- callback_vLinear self twist ;;
  ret (vLinear * cos (callback_Heading twist)).

Definition callback_yVel (self : MecanumCmd) (twist : Twist) : py R :=
  vLinear <- callback_vLinear self twist ;;
  ret (vLinear * sin (callback_Heading twist)).

(** The two squares of line 67 may raise, the left one first. *)
Definition callback_yawVel (self : MecanumCmd) (twist : Twist) : py R :=
  let yawVel := z (angular twist) in
  lhs <- py_pow yawVel 2 ;;
  rhs <- py_pow (maxAngularVelocity self) 2 ;;
  if Rgt_dec lhs rhs
  then py_div (maxAngularVelocity self * yawVel) (Rabs yawVel)
  else ret yawVel.

(** [w], the list [callback] gets from [InverseKinematics]. *)
Definition callback_w (self : MecanumCmd) (twist : Twist) : py (list R) :=
  xVel <- callback_xVel self twist ;;
  yVel <- callback_yVel self twist ;;
  yawVel <- callback_yawVel self twist ;;
  InverseKinematics self xVel yVel yawVel.

(** [MecanumCmd.callback]: the four messages published, with their
    topics, in the order of the [publish] calls. *)
Definition callback (self : MecanumCmd) (twist : Twist)
    : py (list (string * Command)) :=
  w <- callback_w self twist ;;
  ret [ ("roboteq_driver_FLW/cmd", mkCommand 0 (getitem w 0));
        ("roboteq_driver_FRW/cmd", mkCommand 0 (getitem w 1));
        ("roboteq_driver_RLW/cmd", mkCommand 0 (getitem w 2));
        ("roboteq_driver_RRW/cmd", mkCommand 0 (getitem w 3)) ].

(** The node from start to the first command: [MecanumCmd()] and then
    one call of [callback] by [rospy.spin()]. *)
Definition run1 (ps : ParamServer) (twist : Twist)
    : py (list (string * Command)) :=
  self <- init ps ;;
  callback self twist.

End Node.

(** ** wm_mecanum_cmd_test.py *)

Module Test.

Record MecanumCmd : Type := mkMecanumCmd {
  radius : R;
  alpha : R;
  beta : R;
  maxLinearVelocity : R;
  maxAngularVelocity : R
}.

(** [MecanumCmd.__init__]: the geometry is written in the file. *)
Definition init : MecanumCmd :=
  mkMecanumCmd (0.15 / 2) 0.31 0.3 1 (PI / 6).

Definition J (self : MecanumCmd) : list (list R) :=
  [ [1; -1; -1 * (alpha self + beta self)];
    [1;  1; (alpha self + beta self)];
    [1;  1; -1 * (alpha self + beta self)];
    [1; -1; (alpha self + beta self)] ].

(** [MecanumCmd.InverseKinematics] of the feedback path. *)
Definition InverseKinematics (self : MecanumCmd) (xVel yVel yawVel : R)
    : py (list R) :=
  let J := J self in
  let w := [0; 0; 0; 0] in
  for_range (List.length w) (fun k w =>
    inv <- py_div 1 (radius self) ;;
    ret (setitem w k
           (((-1) ^ k) * inv *
            (getitem2 J k 0 * xVel + getitem2 J k 1 * yVel
             + getitem2 J k 2 * yawVel)))) w.

(** [MecanumCmd.callback] of the feedback path: the same clamps, then the
    four [measured_velocity] messages in the order of the [publish] calls. *)
Definition callback (self : MecanumCmd) (twist : Twist)
    : py (list (string * Feedback)) :=
  sx <- py_pow (x (linear twist)) 2 ;;
  sy <- py_pow (y (linear twist)) 2 ;;
  let vLinear := sqrt (sx + sy) in
  let vLinear :=
    if Rgt_dec vLinear (maxLinearVelocity self)
    then maxLinearVelocity self else vLinear in
  let Heading := atan2 (y (linear twist)) (x (linear twist)) in
  let xVel := vLinear * cos Heading in
  let yVel := vLinear * sin Heading in
  let yawVel := z (angular twist) in
  lhs <- py_pow yawVel 2 ;;
  rhs <- py_pow (maxAngularVelocity self) 2 ;;
  yawVel <- (if Rgt_dec lhs rhs
             then py_div (maxAngularVelocity self * yawVel) (Rabs yawVel)
             else ret yawVel) ;;
  w <- InverseKinematics self xVel yVel yawVel ;;
  ret [ ("roboteq_driver_FLW/feedback", mkFeedback (getitem w 0));
        ("roboteq_driver_FRW/feedback", mkFeedback (getitem w 1));
        ("roboteq_driver_RLW/feedback", mkFeedback (getitem w 2));
        ("roboteq_driver_RRW/feedback", mkFeedback (getitem w 3)) ].

End Test.

(** ** The specification's vocabulary *)

(** The node built from the defaults of [__init__]. *)
Definition default_node : Node.MecanumCmd :=
  Node.mkMecanumCmd 0.31 0.30 0.075 1 (PI / 6) 15.0.

(** The values lines 51 to 62 give [vLinear], [xVel] and [yVel] when the
    squares of line 51 do not raise. *)
Definition vLinear_value (self : Node.MecanumCmd) (twist : Twist) : R :=
  let vLinear := sqrt (x (linear twist) ^ 2 + y (linear twist) ^ 2) in
  if Rgt_dec vLinear (Node.maxLinearVelocity self)
  then Node.maxLinearVelocity self
  else vLinear.

Definition xVel_value (self : Node.MecanumCmd) (twist : Twist) : R :=
  vLinear_value self twist * cos (Node.callback_Heading twist).

Definition yVel_value (self : Node.MecanumCmd) (twist : Twist) : R :=
  vLinear_value self twist * sin (Node.callback_Heading twist).

(** The four squares [callback] takes, lines 51 and 67, are all within the
    range of a float. *)
Definition squares_in_range (self : Node.MecanumCmd) (twist : Twist) : Prop :=
  x (linear twist) ^ 2 <= float_max /\ y (linear twist) ^ 2 <= float_max /\
  z (angular twist) ^ 2 <= float_max /\
  Node.maxAngularVelocity self ^ 2 <= float_max.

(** The sign of a yaw rate, as the specification writes [sign]. *)
Definition sgn (w : R) : R :=
  if Rlt_dec 0 w then 1 else if Rlt_dec w 0 then -1 else 0.

(** The coefficient row of wheel [k], as the specification lists them:
    0 is FL, 1 is FR, 2 is RL, 3 is RR. *)
Definition spec_row (a b : R) (k : nat) : R * R * R :=
  match k with
  | 0%nat => (1, -1, - (a + b))
  | 1%nat => (1, 1, a + b)
  | 2%nat => (1, 1, - (a + b))
  | _ => (1, -1, a + b)
  end.

Definition dot3 (row : R * R * R) (vx vy wz : R) : R :=
  let '(a, b, c) := row in a * vx + b * vy + c * wz.

(** The specification's wheel speed:
    [- sign_k * (gearboxRatio / 2) * (1 / wheelRadius) * raw_k]. *)
Definition spec_wheel_speed (self : Node.MecanumCmd) (k : nat)
    (xVel yVel yawVel : R) : R :=
  - (-1) ^ k * (Node.gb_ratio self / 2) * (1 / Node.radius self) *
  dot3 (spec_row (Node.alpha self) (Node.beta self) k) xVel yVel yawVel.


(** The startup check the specification asks for: a parameter set with a
    zero or negative radius, alpha, beta or gearbox ratio makes the
    constructor fail. *)
Definition startup_rejects_bad_geometry : Prop :=
  forall ps : ParamServer,
    get_param ps "wheel_radius" 0.075 <= 0 \/ get_param ps "alpha" 0.31 <= 0 \/
    get_param ps "beta" 0.30 <= 0 \/ get_param ps "gearbox_ratio" 15.0 <= 0 ->
    exists e, Node.init ps = inl e.

(** The specification's picture of a pure yaw rotation, on the list
    [FL; FR; RL; RR]: the two sides have opposite signs and equal
    magnitudes, front and rear of one side agree. *)
Definition sides_opposed (w : list R) : Prop :=
  getitem w 0 * getitem w 1 < 0 /\ getitem w 2 * getitem w 3 < 0 /\
  Rabs (getitem w 0) = Rabs (getitem w 1) /\
  Rabs (getitem w 2) = Rabs (getitem w 3) /\
  getitem w 0 = getitem w 2 /\ getitem w 1 = getitem w 3.

(** A parameter name that the parameter server does not hold. *)
Definition unset (ps : ParamServer) (name : string) : Prop :=
  ~ In name (map fst ps).

(** The command with every component negated. *)
Definition twist_opp (twist : Twist) : Twist :=
  twist_of (- x (linear twist)) (- y (linear twist)) (- z (angular twist)).


(** * Properties *)

(** ** The error monad and division *)

(** Two result lists are equal when their entries are, one by one. *)
Ltac entrywise tac :=
  f_equal; repeat (apply (f_equal2 (@cons R)); [tac |]); try reflexivity.

Lemma py_div_ok (a b : R) : b <> 0 -> py_div a b = inr (a / b).
Proof.
  intros Hb. unfold py_div.
  destruct (Req_dec_T b 0) as [E | _]; [contradiction | reflexivity].
Qed.

Lemma py_div_zero (a : R) : py_div a 0 = inl ZeroDivisionError.
Proof.
  unfold py_div.
  destruct (Req_dec_T 0 0) as [_ | N]; [reflexivity | now elim N].
Qed.

Lemma bind_inr {A B : Type} (a : A) (f : A -> py B) :
  bind (inr a : py A) f = f a.
Proof. reflexivity. Qed.

Lemma bind_inl {A B : Type} (e : PyError) (f : A -> py B) :
  bind (inl e : py A) f = inl e.
Proof. reflexivity. Qed.

(** ** Polar form: magnitude and [atan2] *)

Section Polar.

Variables vx vy : R.

Let m : R := sqrt (vx ^ 2 + vy ^ 2).

Lemma magnitude_nonneg : 0 <= m.
Proof. apply sqrt_pos. Qed.

Lemma magnitude_sqr : m * m = vx ^ 2 + vy ^ 2.
Proof. apply sqrt_sqrt. nra. Qed.

Lemma magnitude_zero : m = 0 -> vx = 0 /\ vy = 0.
Proof.
  intros H0. pose proof magnitude_sqr as Hs. rewrite H0 in Hs. nra.
Qed.

Lemma magnitude_pos : vx <> 0 \/ vy <> 0 -> 0 < m.
Proof.
  intros Hne. pose proof magnitude_nonneg as Hm.
  destruct (Req_dec_T m 0) as [H0 | H0]; [| lra].
  apply magnitude_zero in H0. lra.
Qed.

(** [sqrt (1 + t²)] for the slope [t = vy / vx]. *)
Lemma sqrt_slope : vx <> 0 -> sqrt (1 + (vy / vx)²) = m / Rabs vx.
Proof.
  intros Hx.
  assert (Ha : 0 < Rabs vx) by now apply Rabs_pos_lt.
  pose proof magnitude_nonneg as Hm. pose proof magnitude_sqr as Hs.
  apply sqrt_lem_1.
  - unfold Rsqr. nra.
  - apply Rmult_le_pos; [exact Hm | left; now apply Rinv_0_lt_compat].
  - unfold Rsqr.
    replace (m / Rabs vx * (m / Rabs vx))
      with ((m * m) / (Rabs vx * Rabs vx)) by (field; lra).
    rewrite Hs. replace (Rabs vx * Rabs vx) with (vx * vx)
      by (unfold Rabs; destruct (Rcase_abs vx); ring).
    field. exact Hx.
Qed.

Lemma cos_atan2 : 0 < m -> cos (atan2 vy vx) = vx / m.
Proof.
  intros Hm. pose proof magnitude_sqr as Hs. unfold atan2.
  destruct (Rlt_dec 0 vx) as [Hp | Hnp].
  - rewrite cos_atan, sqrt_slope, Rabs_pos_eq by lra. field. lra.
  - destruct (Rlt_dec vx 0) as [Hn | Hnn].
    + assert (Hc : cos (atan (vy / vx)) = - vx / m).
      { rewrite cos_atan, sqrt_slope, Rabs_left by lra. field. lra. }
      destruct (Rle_dec 0 vy) as [Hy | Hy].
      * rewrite neg_cos, Hc. field. lra.
      * rewrite cos_minus, cos_PI, sin_PI, Hc. field. lra.
    + assert (vx = 0) by lra. subst vx.
      destruct (Rlt_dec 0 vy) as [Hy | Hy].
      * rewrite cos_PI2. field. lra.
      * destruct (Rlt_dec vy 0) as [Hy' | Hy'].
        -- rewrite cos_neg, cos_PI2. field. lra.
        -- nra.
Qed.

Lemma sin_atan2 : 0 < m -> sin (atan2 vy vx) = vy / m.
Proof.
  intros Hm. pose proof magnitude_sqr as Hs. unfold atan2.
  destruct (Rlt_dec 0 vx) as [Hp | Hnp].
  - rewrite sin_atan, sqrt_slope, Rabs_pos_eq by lra. field. lra.
  - destruct (Rlt_dec vx 0) as [Hn | Hnn].
    + assert (Hc : sin (atan (vy / vx)) = - vy / m).
      { rewrite sin_atan, sqrt_slope, Rabs_left by lra. field. lra. }
      destruct (Rle_dec 0 vy) as [Hy | Hy].
      * rewrite neg_sin, Hc. field. lra.
      * rewrite sin_minus, cos_PI, sin_PI, Hc. field. lra.
    + assert (vx = 0) by lra. subst vx.
      assert (Hmy : m = Rabs vy).
      { apply Rsqr_inj; [lra | apply Rabs_pos |].
        unfold Rsqr. rewrite Hs.
        unfold Rabs; destruct (Rcase_abs vy); ring. }
      destruct (Rlt_dec 0 vy) as [Hy | Hy].
      * rewrite sin_PI2, Hmy, Rabs_pos_eq by lra. field. lra.
      * destruct (Rlt_dec vy 0) as [Hy' | Hy'].
        -- rewrite sin_neg, sin_PI2, Hmy, Rabs_left by lra. field. lra.
        -- nra.
Qed.

End Polar.

(** Scaling a point by a positive factor keeps its angle. *)
Lemma atan2_scale (c y x : R) : 0 < c -> atan2 (c * y) (c * x) = atan2 y x.
Proof.
  intros Hc. unfold atan2.
  destruct (Rlt_dec 0 x) as [Hp | Hnp].
  - destruct (Rlt_dec 0 (c * x)) as [_ | N]; [| exfalso; nra].
    f_equal. field. lra.
  - destruct (Rlt_dec 0 (c * x)) as [P | _]; [exfalso; nra |].
    destruct (Rlt_dec x 0) as [Hn | Hnn].
    + destruct (Rlt_dec (c * x) 0) as [_ | N]; [| exfalso; nra].
      replace (c * y / (c * x)) with (y / x) by (field; lra).
      destruct (Rle_dec 0 y) as [Hy | Hy];
        destruct (Rle_dec 0 (c * y)) as [Hcy | Hcy];
        try reflexivity; exfalso; nra.
    + destruct (Rlt_dec (c * x) 0) as [N | _]; [exfalso; nra |].
      destruct (Rlt_dec 0 y) as [Hy | Hy];
        destruct (Rlt_dec 0 (c * y)) as [Hcy | Hcy];
        try reflexivity; try (exfalso; nra).
      destruct (Rlt_dec y 0) as [Hy' | Hy'];
        destruct (Rlt_dec (c * y) 0) as [Hcy' | Hcy'];
        try reflexivity; exfalso; nra.
Qed.

(** ** The transform, row by row *)

(** The command path returns these four values whenever the radius is not
    zero, and raises otherwise. *)
Lemma Node_InverseKinematics_rows (self : Node.MecanumCmd) (xVel yVel yawVel : R) :
  Node.radius self <> 0 ->
  Node.InverseKinematics self xVel yVel yawVel =
  inr [ (- Node.gb_ratio self) / 2 * 1 * (1 / Node.radius self) *
          (1 * xVel + -1 * yVel + -1 * (Node.alpha self + Node.beta self) * yawVel);
        (- Node.gb_ratio self) / 2 * -1 * (1 / Node.radius self) *
          (1 * xVel + 1 * yVel + (Node.alpha self + Node.beta self) * yawVel);
        (- Node.gb_ratio self) / 2 * 1 * (1 / Node.radius self) *
          (1 * xVel + 1 * yVel + -1 * (Node.alpha self + Node.beta self) * yawVel);
        (- Node.gb_ratio self) / 2 * -1 * (1 / Node.radius self) *
          (1 * xVel + -1 * yVel + (Node.alpha self + Node.beta self) * yawVel) ].
Proof.
  intros Hr.
  unfold Node.InverseKinematics, for_range. cbn [List.length seq fold_left].
  cbn. rewrite (py_div_ok 1 _ Hr). cbn.
  repeat f_equal; ring.
Qed.

(** ** The linear clamp *)

Section LinearClamp.

Variable self : Node.MecanumCmd.
Variable twist : Twist.

Let vx : R := x (linear twist).
Let vy : R := y (linear twist).
Let vmax : R := Node.maxLinearVelocity self.

Lemma vLinear_Rmin :
  vLinear_value self twist = Rmin (sqrt (vx ^ 2 + vy ^ 2)) vmax.
Proof.
  unfold vLinear_value, Rmin. fold vx vy vmax.
  destruct (Rgt_dec (sqrt (vx ^ 2 + vy ^ 2)) vmax) as [G | G];
    destruct (Rle_dec (sqrt (vx ^ 2 + vy ^ 2)) vmax) as [L | L];
    try reflexivity; lra.
Qed.

Lemma vLinear_le_max : vLinear_value self twist <= vmax.
Proof. rewrite vLinear_Rmin. apply Rmin_r. Qed.

Lemma vLinear_le_magnitude :
  vLinear_value self twist <= sqrt (vx ^ 2 + vy ^ 2).
Proof. rewrite vLinear_Rmin. apply Rmin_l. Qed.

Lemma vLinear_unclamped :
  sqrt (vx ^ 2 + vy ^ 2) <= vmax ->
  vLinear_value self twist = sqrt (vx ^ 2 + vy ^ 2).
Proof. intros H. rewrite vLinear_Rmin. now apply Rmin_left. Qed.

Lemma vLinear_clamped :
  sqrt (vx ^ 2 + vy ^ 2) > vmax -> vLinear_value self twist = vmax.
Proof. intros H. rewrite vLinear_Rmin. apply Rmin_right. lra. Qed.

Lemma vLinear_nonneg : 0 <= vmax -> 0 <= vLinear_value self twist.
Proof.
  intros H. rewrite vLinear_Rmin. apply Rmin_glb; [apply sqrt_pos | exact H].
Qed.

(** The recomposed vector has the clamped magnitude. *)
Lemma recomposed_sqr :
  xVel_value self twist ^ 2 + yVel_value self twist ^ 2
  = vLinear_value self twist ^ 2.
Proof.
  unfold xVel_value, yVel_value.
  pose proof (sin2_cos2 (Node.callback_Heading twist)) as H.
  unfold Rsqr in H. nra.
Qed.

(** The recomposed vector is the input scaled by [vLinear / magnitude]. *)
Lemma recomposed_scaled :
  0 < sqrt (vx ^ 2 + vy ^ 2) ->
  xVel_value self twist
    = vLinear_value self twist / sqrt (vx ^ 2 + vy ^ 2) * vx /\
  yVel_value self twist
    = vLinear_value self twist / sqrt (vx ^ 2 + vy ^ 2) * vy.
Proof.
  intros Hm. unfold xVel_value, yVel_value, Node.callback_Heading.
  fold vx vy.
  rewrite (cos_atan2 vx vy Hm), (sin_atan2 vx vy Hm).
  split; field; lra.
Qed.

(** Clamping keeps the heading of a command that still moves. *)
Lemma heading_kept :
  0 < vLinear_value self twist ->
  atan2 (yVel_value self twist) (xVel_value self twist)
  = atan2 vy vx.
Proof.
  intros Hv.
  assert (Hm : 0 < sqrt (vx ^ 2 + vy ^ 2)).
  { pose proof vLinear_le_magnitude. lra. }
  destruct (recomposed_scaled Hm) as [-> ->].
  apply atan2_scale. now apply Rdiv_lt_0_compat.
Qed.

(** A command inside the limit comes out as it went in. *)
Lemma recomposed_unclamped :
  sqrt (vx ^ 2 + vy ^ 2) <= vmax ->
  xVel_value self twist = vx /\ yVel_value self twist = vy.
Proof.
  intros Hle. pose proof (vLinear_unclamped Hle) as Hv.
  destruct (Req_dec_T (sqrt (vx ^ 2 + vy ^ 2)) 0) as [H0 | H0].
  - destruct (magnitude_zero vx vy H0) as [Hx Hy].
    unfold xVel_value, yVel_value.
    rewrite Hv, H0, Hx, Hy. split; ring.
  - assert (Hm : 0 < sqrt (vx ^ 2 + vy ^ 2)).
    { pose proof (sqrt_pos (vx ^ 2 + vy ^ 2)). lra. }
    destruct (recomposed_scaled Hm) as [-> ->]. rewrite Hv.
    split; field; lra.
Qed.

End LinearClamp.

(** ** Powers and the range of a float *)

Lemma float_max_large : 2 ^ 20 <= float_max.
Proof.
  unfold float_max.
  assert (H52 : / 2 ^ 52 <= 1).
  { rewrite <- Rinv_1. apply Rinv_le_contravar; [lra |].
    apply pow_R1_Rle. lra. }
  assert (Hp : 2 ^ 20 <= 2 ^ 1023) by (apply Rle_pow; [lra | lia]).
  assert (H0 : 0 < 2 ^ 1023) by (apply pow_lt; lra).
  nra.
Qed.

Lemma float_max_below : float_max < 2 ^ 1024.
Proof.
  unfold float_max.
  assert (H52 : 0 < / 2 ^ 52) by (apply Rinv_0_lt_compat, pow_lt; lra).
  assert (H0 : 0 < 2 ^ 1023) by (apply pow_lt; lra).
  change (2 ^ 1024) with (2 * 2 ^ 1023). nra.
Qed.

(** A number of absolute value up to 1024 has its square in range. *)
Lemma small_sq_in_range (a : R) : -1024 <= a <= 1024 -> a ^ 2 <= float_max.
Proof.
  intros Ha. pose proof float_max_large as Hf.
  assert (H20 : (2 : R) ^ 20 = 1024 * 1024) by (simpl; lra).
  rewrite H20 in Hf. nra.
Qed.

(** [2^600] is a finite float whose square is out of range. *)
Lemma huge_sq_out_of_range : (2 ^ 600) ^ 2 > float_max.
Proof.
  rewrite <- pow_mult. pose proof float_max_below as Hf.
  assert (H : (2 : R) ^ 1024 < 2 ^ (600 * 2)).
  { apply Rlt_pow; [lra | lia]. }
  lra.
Qed.

Lemma sq_abs (a : R) : Rabs (a ^ 2) = a ^ 2.
Proof. apply Rabs_pos_eq. nra. Qed.

Lemma py_sq_ok (a : R) : a ^ 2 <= float_max -> py_pow a 2 = inr (a ^ 2).
Proof.
  intros H. unfold py_pow. rewrite sq_abs.
  destruct (Rgt_dec (a ^ 2) float_max); [lra | reflexivity].
Qed.

Lemma py_sq_overflow (a : R) :
  a ^ 2 > float_max -> py_pow a 2 = inl OverflowError.
Proof.
  intros H. unfold py_pow. rewrite sq_abs.
  destruct (Rgt_dec (a ^ 2) float_max); [reflexivity | lra].
Qed.

(** A square either is in range or raises. *)
Lemma py_sq_cases (a : R) :
  (a ^ 2 <= float_max /\ py_pow a 2 = inr (a ^ 2)) \/
  (a ^ 2 > float_max /\ py_pow a 2 = inl OverflowError).
Proof.
  destruct (Rle_dec (a ^ 2) float_max) as [H | H].
  - left. split; [exact H | now apply py_sq_ok].
  - right. split; [lra | apply py_sq_overflow; lra].
Qed.

(** ** The locals of [callback] and their values *)

Section Locals.

Variable self : Node.MecanumCmd.
Variable twist : Twist.

Lemma callback_vLinear_ok :
  x (linear twist) ^ 2 <= float_max -> y (linear twist) ^ 2 <= float_max ->
  Node.callback_vLinear self twist = inr (vLinear_value self twist).
Proof.
  intros Hx Hy. unfold Node.callback_vLinear.
  rewrite (py_sq_ok _ Hx), bind_inr, (py_sq_ok _ Hy), bind_inr. reflexivity.
Qed.

Lemma callback_vLinear_overflow :
  x (linear twist) ^ 2 > float_max \/ y (linear twist) ^ 2 > float_max ->
  Node.callback_vLinear self twist = inl OverflowError.
Proof.
  intros H. unfold Node.callback_vLinear.
  destruct (py_sq_cases (x (linear twist))) as [[Hx ->] | [Hx ->]];
    [| reflexivity].
  rewrite bind_inr.
  destruct (py_sq_cases (y (linear twist))) as [[Hy ->] | [Hy ->]];
    [| reflexivity].
  exfalso. lra.
Qed.

Lemma callback_vLinear_inv (v : R) :
  Node.callback_vLinear self twist = inr v ->
  x (linear twist) ^ 2 <= float_max /\ y (linear twist) ^ 2 <= float_max /\
  v = vLinear_value self twist.
Proof.
  intros Hv.
  destruct (Rle_dec (x (linear twist) ^ 2) float_max) as [Hx | Hx];
    [| rewrite callback_vLinear_overflow in Hv by (left; lra); discriminate Hv].
  destruct (Rle_dec (y (linear twist) ^ 2) float_max) as [Hy | Hy];
    [| rewrite callback_vLinear_overflow in Hv by (right; lra); discriminate Hv].
  rewrite (callback_vLinear_ok Hx Hy) in Hv. injection Hv as <-. auto.
Qed.

Lemma callback_xVel_ok :
  x (linear twist) ^ 2 <= float_max -> y (linear twist) ^ 2 <= float_max ->
  Node.callback_xVel self twist = inr (xVel_value self twist).
Proof.
  intros Hx Hy. unfold Node.callback_xVel.
  rewrite (callback_vLinear_ok Hx Hy), bind_inr. reflexivity.
Qed.

Lemma callback_yVel_ok :
  x (linear twist) ^ 2 <= float_max -> y (linear twist) ^ 2 <= float_max ->
  Node.callback_yVel self twist = inr (yVel_value self twist).
Proof.
  intros Hx Hy. unfold Node.callback_yVel.
  rewrite (callback_vLinear_ok Hx Hy), bind_inr. reflexivity.
Qed.

Lemma callback_xVel_inv (xv : R) :
  Node.callback_xVel self twist = inr xv ->
  x (linear twist) ^ 2 <= float_max /\ y (linear twist) ^ 2 <= float_max /\
  xv = xVel_value self twist.
Proof.
  intros Hv. unfold Node.callback_xVel in Hv.
  destruct (Node.callback_vLinear self twist) as [e | v] eqn:E;
    [discriminate Hv |].
  destruct (callback_vLinear_inv _ E) as (Hx & Hy & ->).
  rewrite bind_inr in Hv. injection Hv as <-. auto.
Qed.

Lemma callback_yVel_inv (yv : R) :
  Node.callback_yVel self twist = inr yv ->
  x (linear twist) ^ 2 <= float_max /\ y (linear twist) ^ 2 <= float_max /\
  yv = yVel_value self twist.
Proof.
  intros Hv. unfold Node.callback_yVel in Hv.
  destruct (Node.callback_vLinear self twist) as [e | v] eqn:E;
    [discriminate Hv |].
  destruct (callback_vLinear_inv _ E) as (Hx & Hy & ->).
  rewrite bind_inr in Hv. injection Hv as <-. auto.
Qed.

(** The three linear locals return together when the squares are in
    range. *)
Lemma linear_locals_return :
  x (linear twist) ^ 2 <= float_max -> y (linear twist) ^ 2 <= float_max ->
  exists v xv yv,
    Node.callback_vLinear self twist = inr v /\
    Node.callback_xVel self twist = inr xv /\
    Node.callback_yVel self twist = inr yv.
Proof.
  intros Hx Hy. do 3 eexists.
  split; [exact (callback_vLinear_ok Hx Hy) |].
  split; [exact (callback_xVel_ok Hx Hy) | exact (callback_yVel_ok Hx Hy)].
Qed.

End Locals.

(** ** The angular clamp *)

Lemma sqr_gt_nonzero (a b : R) : a ^ 2 > b ^ 2 -> Rabs a <> 0.
Proof.
  intros H. apply Rabs_no_R0. intros ->. nra.
Qed.

Lemma over_abs (a : R) : a <> 0 -> a / Rabs a = sgn a.
Proof.
  intros Ha. unfold sgn, Rabs.
  destruct (Rcase_abs a) as [N | P];
    destruct (Rlt_dec 0 a) as [P' | P']; try lra.
  - destruct (Rlt_dec a 0) as [_ | N']; [field; lra | lra].
  - field. lra.
Qed.

Section AngularClamp.

Variable self : Node.MecanumCmd.
Variable twist : Twist.

Let wz : R := z (angular twist).
Let wmax : R := Node.maxAngularVelocity self.

Lemma yawVel_overflow :
  wz ^ 2 > float_max \/ wmax ^ 2 > float_max ->
  Node.callback_yawVel self twist = inl OverflowError.
Proof.
  intros H. unfold Node.callback_yawVel. fold wz wmax.
  destruct (py_sq_cases wz) as [[Hz ->] | [Hz ->]]; [| reflexivity].
  rewrite bind_inr.
  destruct (py_sq_cases wmax) as [[Hm ->] | [Hm ->]]; [| reflexivity].
  exfalso. lra.
Qed.

(** What the clamp is once both squares are in range. *)
Lemma yawVel_in_range :
  wz ^ 2 <= float_max -> wmax ^ 2 <= float_max ->
  Node.callback_yawVel self twist
  = if Rgt_dec (wz ^ 2) (wmax ^ 2)
    then py_div (wmax * wz) (Rabs wz) else inr wz.
Proof.
  intros Hz Hm. unfold Node.callback_yawVel. fold wz wmax.
  rewrite (py_sq_ok _ Hz), bind_inr, (py_sq_ok _ Hm), bind_inr. reflexivity.
Qed.

Lemma yawVel_inv (yaw : R) :
  Node.callback_yawVel self twist = inr yaw ->
  wz ^ 2 <= float_max /\ wmax ^ 2 <= float_max.
Proof.
  intros Hy.
  destruct (Rle_dec (wz ^ 2) float_max) as [Hz | Hz];
    [| rewrite yawVel_overflow in Hy by (left; lra); discriminate Hy].
  destruct (Rle_dec (wmax ^ 2) float_max) as [Hm | Hm];
    [| rewrite yawVel_overflow in Hy by (right; lra); discriminate Hy].
  auto.
Qed.

Lemma yawVel_clamped :
  wz ^ 2 <= float_max -> wmax ^ 2 <= float_max ->
  wz ^ 2 > wmax ^ 2 ->
  Node.callback_yawVel self twist = inr (wmax * sgn wz).
Proof.
  intros Hz Hm H. rewrite (yawVel_in_range Hz Hm).
  destruct (Rgt_dec (wz ^ 2) (wmax ^ 2)) as [_ | N]; [| contradiction].
  pose proof (sqr_gt_nonzero _ _ H) as Habs.
  rewrite (py_div_ok _ _ Habs). f_equal.
  rewrite <- over_abs by (intros E; apply Habs; rewrite E; apply Rabs_R0).
  field. exact Habs.
Qed.

Lemma yawVel_unclamped :
  wz ^ 2 <= float_max -> wmax ^ 2 <= float_max ->
  ~ wz ^ 2 > wmax ^ 2 -> Node.callback_yawVel self twist = inr wz.
Proof.
  intros Hz Hm H. rewrite (yawVel_in_range Hz Hm).
  destruct (Rgt_dec (wz ^ 2) (wmax ^ 2)) as [G | _];
    [contradiction | reflexivity].
Qed.

(** In range the clamp returns, whatever the limit. *)
Lemma yawVel_returns :
  wz ^ 2 <= float_max -> wmax ^ 2 <= float_max ->
  exists yaw, Node.callback_yawVel self twist = inr yaw.
Proof.
  intros Hz Hm.
  destruct (Rgt_dec (wz ^ 2) (wmax ^ 2)) as [G | G].
  - eexists. now apply yawVel_clamped.
  - eexists. now apply yawVel_unclamped.
Qed.

(** The clamp never divides by zero. *)
Lemma yawVel_no_zero_division :
  Node.callback_yawVel self twist <> inl ZeroDivisionError.
Proof.
  destruct (Rle_dec (wz ^ 2) float_max) as [Hz | Hz];
    [| rewrite yawVel_overflow by (left; lra); discriminate].
  destruct (Rle_dec (wmax ^ 2) float_max) as [Hm | Hm];
    [| rewrite yawVel_overflow by (right; lra); discriminate].
  destruct (yawVel_returns Hz Hm) as [yaw ->]. discriminate.
Qed.

Lemma yawVel_bounded (yaw : R) :
  0 <= wmax -> Node.callback_yawVel self twist = inr yaw -> Rabs yaw <= wmax.
Proof.
  intros Hmax Hy. destruct (yawVel_inv _ Hy) as [Hz Hm].
  destruct (Rgt_dec (wz ^ 2) (wmax ^ 2)) as [G | G].
  - rewrite (yawVel_clamped Hz Hm G) in Hy. injection Hy as <-.
    rewrite Rabs_mult, (Rabs_pos_eq wmax Hmax).
    unfold sgn. destruct (Rlt_dec 0 wz); [| destruct (Rlt_dec wz 0)].
    + rewrite Rabs_R1. lra.
    + rewrite Rabs_left by lra. lra.
    + rewrite Rabs_R0. lra.
  - rewrite (yawVel_unclamped Hz Hm G) in Hy. injection Hy as <-.
    unfold Rabs. destruct (Rcase_abs wz); nra.
Qed.

End AngularClamp.

(** ** The whole of [callback] *)

Section Callback.

Variable self : Node.MecanumCmd.
Variable twist : Twist.

(** In range, [callback] hands the values of its locals to the transform. *)
Lemma callback_w_in_range (yaw : R) :
  x (linear twist) ^ 2 <= float_max -> y (linear twist) ^ 2 <= float_max ->
  Node.callback_yawVel self twist = inr yaw ->
  Node.callback_w self twist
  = Node.InverseKinematics self (xVel_value self twist)
                           (yVel_value self twist) yaw.
Proof.
  intros Hx Hy Hyaw. unfold Node.callback_w.
  rewrite (callback_xVel_ok self twist Hx Hy), bind_inr,
    (callback_yVel_ok self twist Hx Hy), bind_inr, Hyaw, bind_inr.
  reflexivity.
Qed.

Lemma callback_w_overflow :
  ~ squares_in_range self twist ->
  Node.callback_w self twist = inl OverflowError.
Proof.
  intros Hn. unfold Node.callback_w.
  destruct (Rle_dec (x (linear twist) ^ 2) float_max) as [Hx | Hx];
    [| unfold Node.callback_xVel;
       rewrite callback_vLinear_overflow by (left; lra); reflexivity].
  destruct (Rle_dec (y (linear twist) ^ 2) float_max) as [Hy | Hy];
    [| unfold Node.callback_xVel;
       rewrite callback_vLinear_overflow by (right; lra); reflexivity].
  rewrite (callback_xVel_ok self twist Hx Hy), bind_inr,
    (callback_yVel_ok self twist Hx Hy), bind_inr.
  rewrite yawVel_overflow; [reflexivity |].
  destruct (Rle_dec (z (angular twist) ^ 2) float_max) as [Hz | Hz];
    [| left; lra].
  destruct (Rle_dec (Node.maxAngularVelocity self ^ 2) float_max)
    as [Hm | Hm]; [| right; lra].
  exfalso. apply Hn. unfold squares_in_range. auto.
Qed.

Lemma callback_w_ok :
  squares_in_range self twist -> Node.radius self <> 0 ->
  exists w, Node.callback_w self twist = inr w.
Proof.
  intros (Hx & Hy & Hz & Hm) Hr.
  destruct (yawVel_returns self twist Hz Hm) as [yaw Hyaw].
  rewrite (callback_w_in_range yaw Hx Hy Hyaw),
    (Node_InverseKinematics_rows _ _ _ _ Hr). eauto.
Qed.

End Callback.

(** ** The default geometry *)

Lemma init_default : Node.init [] = inr default_node.
Proof.
  unfold Node.init. cbn [get_param].
  rewrite py_div_ok by lra. reflexivity.
Qed.

Lemma PI_over_6_sqr : (PI / 6) ^ 2 < 1.
Proof. pose proof PI_4. pose proof PI_RGT_0. nra. Qed.

Lemma default_limit_in_range :
  Node.maxAngularVelocity default_node ^ 2 <= float_max.
Proof.
  cbn [default_node Node.maxAngularVelocity].
  apply small_sq_in_range. pose proof PI_4. pose proof PI_RGT_0. lra.
Qed.

(** A command with components up to 1024 is in range at the default
    geometry. *)
Lemma small_command_in_range (vx vy wz : R) :
  -1024 <= vx <= 1024 -> -1024 <= vy <= 1024 -> -1024 <= wz <= 1024 ->
  squares_in_range default_node (twist_of vx vy wz).
Proof.
  intros Hx Hy Hz. unfold squares_in_range. cbn [twist_of linear angular x y z].
  repeat split; try (now apply small_sq_in_range).
  exact default_limit_in_range.
Qed.

(** ** The transform against the specification *)

(** C1. For every velocity triple and every geometry whose radius is not
    zero, [InverseKinematics] returns four values, and the one at index [k]
    is [-(-1)^k * (gearboxRatio / 2) * (1 / wheelRadius) * (row_k . v)] with
    the rows FL (1, -1, -(alpha+beta)), FR (1, 1, alpha+beta),
    RL (1, 1, -(alpha+beta)), RR (1, -1, alpha+beta). *)
Theorem InverseKinematics_matches_spec
    (self : Node.MecanumCmd) (xVel yVel yawVel : R) :
  Node.radius self <> 0 ->
  exists w,
    Node.InverseKinematics self xVel yVel yawVel = inr w /\
    List.length w = 4%nat /\
    forall k, (k < 4)%nat ->
      getitem w k = spec_wheel_speed self k xVel yVel yawVel.
Proof.
  intros Hr. eexists. split; [now apply Node_InverseKinematics_rows |].
  split; [reflexivity |].
  intros k Hk. unfold spec_wheel_speed.
  destruct k as [| [| [| [| k]]]]; [| | | | lia];
    cbn [getitem nth spec_row dot3 pow]; field; exact Hr.
Qed.

Lemma InverseKinematics_matches_spec_witness :
  Node.radius default_node <> 0 /\
  exists w,
    Node.InverseKinematics default_node 1 0 0 = inr w /\
    List.length w = 4%nat /\
    forall k, (k < 4)%nat -> getitem w k = spec_wheel_speed default_node k 1 0 0.
Proof.
  assert (Hr : Node.radius default_node <> 0) by (cbn; lra).
  split; [exact Hr | exact (InverseKinematics_matches_spec default_node 1 0 0 Hr)].
Defined.

(** With a zero radius the transform raises at [1/self.radius]. *)
Lemma Node_InverseKinematics_zero_radius
    (self : Node.MecanumCmd) (xVel yVel yawVel : R) :
  Node.radius self = 0 ->
  Node.InverseKinematics self xVel yVel yawVel = inl ZeroDivisionError.
Proof.
  intros Hr. unfold Node.InverseKinematics, for_range.
  cbn. rewrite Hr, py_div_zero. reflexivity.
Qed.

(** ** The clamps against the specification *)

(** C3. The clamped magnitude is [min (sqrt (vx^2 + vy^2)) maxLinearSpeed]
    and never exceeds [maxLinearSpeed]; whenever it is positive, the
    recomposed vector has the heading of the input:
    [atan2 yVel xVel = atan2 vy vx]. The three locals are computed whenever
    the squares of line 51 are in range. *)
Theorem linear_clamp_keeps_heading (self : Node.MecanumCmd) (twist : Twist) :
  (x (linear twist) ^ 2 <= float_max -> y (linear twist) ^ 2 <= float_max ->
   exists vLinear xVel yVel,
     Node.callback_vLinear self twist = inr vLinear /\
     Node.callback_xVel self twist = inr xVel /\
     Node.callback_yVel self twist = inr yVel) /\
  (forall vLinear xVel yVel,
     Node.callback_vLinear self twist = inr vLinear ->
     Node.callback_xVel self twist = inr xVel ->
     Node.callback_yVel self twist = inr yVel ->
     vLinear = Rmin (sqrt (x (linear twist) ^ 2 + y (linear twist) ^ 2))
                    (Node.maxLinearVelocity self) /\
     vLinear <= Node.maxLinearVelocity self /\
     (0 < vLinear ->
      atan2 yVel xVel = atan2 (y (linear twist)) (x (linear twist)))).
Proof.
  split; [apply linear_locals_return |].
  intros v xv yv Hv Hxv Hyv.
  destruct (callback_vLinear_inv _ _ _ Hv) as (_ & _ & ->).
  destruct (callback_xVel_inv _ _ _ Hxv) as (_ & _ & ->).
  destruct (callback_yVel_inv _ _ _ Hyv) as (_ & _ & ->).
  split; [apply vLinear_Rmin |].
  split; [apply vLinear_le_max | apply heading_kept].
Qed.

Lemma sqrt_3_4 : sqrt (3 ^ 2 + 4 ^ 2) = 5.
Proof. apply sqrt_lem_1; lra. Qed.

Lemma vLinear_value_3_4 (wz : R) :
  vLinear_value default_node (twist_of 3 4 wz) = 1.
Proof.
  rewrite vLinear_clamped;
    cbn [twist_of linear x y default_node Node.maxLinearVelocity];
    [reflexivity | rewrite sqrt_3_4; lra].
Qed.

Lemma linear_clamp_keeps_heading_witness :
  Node.callback_vLinear default_node (twist_of 3 4 0) = inr 1 /\
  exists xVel yVel,
    Node.callback_xVel default_node (twist_of 3 4 0) = inr xVel /\
    Node.callback_yVel default_node (twist_of 3 4 0) = inr yVel /\
    atan2 yVel xVel = atan2 4 3.
Proof.
  assert (Hx : x (linear (twist_of 3 4 0)) ^ 2 <= float_max)
    by (apply small_sq_in_range; cbn [twist_of linear x]; lra).
  assert (Hy : y (linear (twist_of 3 4 0)) ^ 2 <= float_max)
    by (apply small_sq_in_range; cbn [twist_of linear y]; lra).
  destruct (linear_clamp_keeps_heading default_node (twist_of 3 4 0))
    as [Hret Hval].
  destruct (Hret Hx Hy) as (v & xv & yv & Hv & Hxv & Hyv).
  destruct (Hval v xv yv Hv Hxv Hyv) as (_ & _ & Hh).
  assert (E : v = 1).
  { rewrite (callback_vLinear_ok _ _ Hx Hy) in Hv. injection Hv as <-.
    apply vLinear_value_3_4. }
  subst v. split; [exact Hv |].
  exists xv, yv. split; [exact Hxv |]. split; [exact Hyv | apply Hh; lra].
Defined.

(** C7. A command whose magnitude is exactly [maxLinearSpeed] is not clamped
    and is recomposed unchanged; a command whose magnitude is above
    [maxLinearSpeed] gets the magnitude [maxLinearSpeed] exactly, which is
    also the magnitude of the recomposed vector when the limit is not
    negative. The three locals are computed whenever the squares of line 51
    are in range. *)
Theorem saturation_boundary (self : Node.MecanumCmd) (twist : Twist) :
  (x (linear twist) ^ 2 <= float_max -> y (linear twist) ^ 2 <= float_max ->
   exists vLinear xVel yVel,
     Node.callback_vLinear self twist = inr vLinear /\
     Node.callback_xVel self twist = inr xVel /\
     Node.callback_yVel self twist = inr yVel) /\
  (forall vLinear xVel yVel,
     Node.callback_vLinear self twist = inr vLinear ->
     Node.callback_xVel self twist = inr xVel ->
     Node.callback_yVel self twist = inr yVel ->
     (sqrt (x (linear twist) ^ 2 + y (linear twist) ^ 2)
        = Node.maxLinearVelocity self ->
      vLinear = sqrt (x (linear twist) ^ 2 + y (linear twist) ^ 2) /\
      xVel = x (linear twist) /\ yVel = y (linear twist)) /\
     (sqrt (x (linear twist) ^ 2 + y (linear twist) ^ 2)
        > Node.maxLinearVelocity self ->
      vLinear = Node.maxLinearVelocity self /\
      (0 <= Node.maxLinearVelocity self ->
       sqrt (xVel ^ 2 + yVel ^ 2) = Node.maxLinearVelocity self))).
Proof.
  split; [apply linear_locals_return |].
  intros v xv yv Hv Hxv Hyv.
  destruct (callback_vLinear_inv _ _ _ Hv) as (_ & _ & ->).
  destruct (callback_xVel_inv _ _ _ Hxv) as (_ & _ & ->).
  destruct (callback_yVel_inv _ _ _ Hyv) as (_ & _ & ->).
  split.
  - intros He. split.
    + apply vLinear_unclamped. lra.
    + apply recomposed_unclamped. lra.
  - intros Hg. pose proof (vLinear_clamped self twist Hg) as Hc.
    split; [exact Hc |].
    intros Hmax. rewrite recomposed_sqr, Hc.
    apply sqrt_lem_1; [nra | exact Hmax | ring].
Qed.

Lemma sqrt_unit : sqrt (0.6 ^ 2 + 0.8 ^ 2) = 1.
Proof. apply sqrt_lem_1; lra. Qed.

Lemma saturation_boundary_witness :
  (Node.callback_vLinear default_node (twist_of 0.6 0.8 0) = inr 1 /\
   Node.callback_xVel default_node (twist_of 0.6 0.8 0) = inr 0.6 /\
   Node.callback_yVel default_node (twist_of 0.6 0.8 0) = inr 0.8) /\
  (Node.callback_vLinear default_node (twist_of 3 4 0) = inr 1 /\
   exists xVel yVel,
     Node.callback_xVel default_node (twist_of 3 4 0) = inr xVel /\
     Node.callback_yVel default_node (twist_of 3 4 0) = inr yVel /\
     sqrt (xVel ^ 2 + yVel ^ 2) = 1).
Proof.
  split.
  - destruct (saturation_boundary default_node (twist_of 0.6 0.8 0))
      as [Hret Hval].
    destruct Hret as (v & xv & yv & Hv & Hxv & Hyv);
      [apply small_sq_in_range; cbn [twist_of linear x]; lra
      | apply small_sq_in_range; cbn [twist_of linear y]; lra |].
    destruct (Hval v xv yv Hv Hxv Hyv) as [He _].
    cbn [twist_of linear x y default_node Node.maxLinearVelocity] in He.
    rewrite sqrt_unit in He. destruct (He eq_refl) as (-> & -> & ->).
    auto.
  - destruct (saturation_boundary default_node (twist_of 3 4 0))
      as [Hret Hval].
    destruct Hret as (v & xv & yv & Hv & Hxv & Hyv);
      [apply small_sq_in_range; cbn [twist_of linear x]; lra
      | apply small_sq_in_range; cbn [twist_of linear y]; lra |].
    destruct (Hval v xv yv Hv Hxv Hyv) as [_ Hg].
    cbn [twist_of linear x y default_node Node.maxLinearVelocity] in Hg.
    rewrite sqrt_3_4 in Hg.
    assert (G : 5 > 1) by lra. destruct (Hg G) as [-> Hs].
    split; [exact Hv |]. exists xv, yv.
    split; [exact Hxv |]. split; [exact Hyv | apply Hs; lra].
Defined.

(** C4. With a positive limit, the clamped yaw rate is within the limit in
    absolute value; when [wz^2 > maxAngularSpeed^2] it is
    [maxAngularSpeed * sign wz], which has the sign of the input; otherwise
    it is the input unchanged. The clamped rate is computed whenever the
    squares of line 67 are in range. *)
Theorem angular_clamp_bounded (self : Node.MecanumCmd) (twist : Twist) :
  0 < Node.maxAngularVelocity self ->
  (z (angular twist) ^ 2 <= float_max ->
   Node.maxAngularVelocity self ^ 2 <= float_max ->
   exists yaw, Node.callback_yawVel self twist = inr yaw) /\
  (forall yaw,
     Node.callback_yawVel self twist = inr yaw ->
     Rabs yaw <= Node.maxAngularVelocity self /\
     (z (angular twist) ^ 2 > Node.maxAngularVelocity self ^ 2 ->
      yaw = Node.maxAngularVelocity self * sgn (z (angular twist)) /\
      sgn yaw = sgn (z (angular twist))) /\
     (~ z (angular twist) ^ 2 > Node.maxAngularVelocity self ^ 2 ->
      yaw = z (angular twist))).
Proof.
  intros Hmax. split; [apply yawVel_returns |].
  intros yaw Hy. destruct (yawVel_inv self twist yaw Hy) as [Hz Hm].
  split; [apply (yawVel_bounded self twist); [lra | exact Hy] |].
  split.
  - intros G. rewrite (yawVel_clamped self twist Hz Hm G) in Hy.
    injection Hy as <-. split; [reflexivity |].
    unfold sgn at 2 3.
    destruct (Rlt_dec 0 (z (angular twist))) as [P | P].
    + unfold sgn. destruct (Rlt_dec 0 (Node.maxAngularVelocity self * 1));
        [reflexivity | lra].
    + destruct (Rlt_dec (z (angular twist)) 0) as [N | N].
      * unfold sgn.
        destruct (Rlt_dec 0 (Node.maxAngularVelocity self * -1)); [lra |].
        destruct (Rlt_dec (Node.maxAngularVelocity self * -1) 0);
          [reflexivity | lra].
      * exfalso. assert (z (angular twist) = 0) by lra. nra.
  - intros G. rewrite (yawVel_unclamped self twist Hz Hm G) in Hy.
    now injection Hy as <-.
Qed.

Lemma angular_clamp_bounded_witness :
  0 < Node.maxAngularVelocity default_node /\
  exists yaw,
    Node.callback_yawVel default_node (twist_of 0 0 1) = inr yaw /\
    Rabs yaw <= PI / 6 /\ yaw = PI / 6 * sgn 1.
Proof.
  assert (Hmax : 0 < Node.maxAngularVelocity default_node).
  { cbn [default_node Node.maxAngularVelocity]. pose proof PI_RGT_0. lra. }
  split; [exact Hmax |].
  destruct (angular_clamp_bounded default_node (twist_of 0 0 1) Hmax)
    as [Hret Hval].
  destruct Hret as [yaw Hy];
    [apply small_sq_in_range; cbn [twist_of angular z]; lra
    | exact default_limit_in_range |].
  destruct (Hval yaw Hy) as (Hb & Hc & _).
  exists yaw. split; [exact Hy |]. split; [exact Hb |].
  apply Hc. cbn [twist_of angular z default_node Node.maxAngularVelocity].
  pose proof PI_over_6_sqr. lra.
Defined.

(** C8, as the code has it. The division by [abs(yawVel)] is reached only
    when [yawVel^2 > maxAngularVelocity^2], where [abs(yawVel)] is positive:
    the clamp never raises [ZeroDivisionError]. It returns a value whenever
    the two squares of line 67 are in range, and raises [OverflowError]
    otherwise, so it is not total. *)
Theorem angular_clamp_never_divides_by_zero
    (self : Node.MecanumCmd) (twist : Twist) :
  (z (angular twist) ^ 2 > Node.maxAngularVelocity self ^ 2 ->
   0 < Rabs (z (angular twist))) /\
  Node.callback_yawVel self twist <> inl ZeroDivisionError /\
  (z (angular twist) ^ 2 <= float_max ->
   Node.maxAngularVelocity self ^ 2 <= float_max ->
   exists yaw, Node.callback_yawVel self twist = inr yaw) /\
  (z (angular twist) ^ 2 > float_max \/
   Node.maxAngularVelocity self ^ 2 > float_max ->
   Node.callback_yawVel self twist = inl OverflowError).
Proof.
  split.
  - intros G. pose proof (sqr_gt_nonzero _ _ G) as Hn.
    pose proof (Rabs_pos (z (angular twist))). lra.
  - split; [apply yawVel_no_zero_division |].
    split; [apply yawVel_returns | apply yawVel_overflow].
Qed.

Lemma angular_clamp_never_divides_by_zero_witness :
  (1 ^ 2 > (PI / 6) ^ 2 /\ 0 < Rabs 1) /\
  (exists yaw, Node.callback_yawVel default_node (twist_of 0 0 1) = inr yaw) /\
  Node.callback_yawVel default_node (twist_of 0 0 (2 ^ 600))
  = inl OverflowError.
Proof.
  assert (G : 1 ^ 2 > (PI / 6) ^ 2) by (pose proof PI_over_6_sqr; lra).
  destruct (angular_clamp_never_divides_by_zero default_node (twist_of 0 0 1))
    as (Hpos & _ & Hret & _).
  split; [split; [exact G | exact (Hpos G)] |].
  split.
  - apply Hret; [apply small_sq_in_range; cbn [twist_of angular z]; lra
                | exact default_limit_in_range].
  - apply (angular_clamp_never_divides_by_zero default_node
             (twist_of 0 0 (2 ^ 600))).
    left. exact huge_sq_out_of_range.
Defined.

(** C8, as the specification states it, fails: the clamp is not total,
    a large finite yaw rate makes it raise. *)
Lemma angular_clamp_not_total :
  Node.callback_yawVel default_node (twist_of 0 0 (2 ^ 600))
  = inl OverflowError /\
  ~ (forall (self : Node.MecanumCmd) (twist : Twist),
       exists yaw, Node.callback_yawVel self twist = inr yaw).
Proof.
  assert (H : Node.callback_yawVel default_node (twist_of 0 0 (2 ^ 600))
              = inl OverflowError).
  { apply yawVel_overflow. left. exact huge_sq_out_of_range. }
  split; [exact H |].
  intros Htotal.
  destruct (Htotal default_node (twist_of 0 0 (2 ^ 600))) as [yaw Hy].
  rewrite H in Hy. discriminate Hy.
Qed.

(** ** Startup *)

(** The constructor fails on a zero [angular_vel_div] and on nothing else;
    what it stores is what the parameter server holds. *)
Lemma init_value (ps : ParamServer) :
  get_param ps "angular_vel_div" 6 <> 0 ->
  Node.init ps =
  inr (Node.mkMecanumCmd
         (get_param ps "alpha" 0.31) (get_param ps "beta" 0.30)
         (get_param ps "wheel_radius" 0.075) (get_param ps "max_linear_vel" 1)
         (PI / get_param ps "angular_vel_div" 6)
         (get_param ps "gearbox_ratio" 15.0)).
Proof.
  intros Hd. unfold Node.init. rewrite (py_div_ok _ _ Hd). reflexivity.
Qed.

Lemma init_zero_divisor (ps : ParamServer) :
  get_param ps "angular_vel_div" 6 = 0 ->
  Node.init ps = inl ZeroDivisionError.
Proof.
  intros Hd. unfold Node.init. rewrite Hd, py_div_zero. reflexivity.
Qed.

(** In range, [callback] succeeds exactly when the radius is not zero. *)
Lemma callback_ok (self : Node.MecanumCmd) (twist : Twist) :
  squares_in_range self twist -> Node.radius self <> 0 ->
  exists out, Node.callback self twist = inr out.
Proof.
  intros Hin Hr. unfold Node.callback.
  destruct (callback_w_ok self twist Hin Hr) as [w ->]. rewrite bind_inr.
  eexists. reflexivity.
Qed.

Lemma callback_zero_radius (self : Node.MecanumCmd) (twist : Twist) :
  squares_in_range self twist -> Node.radius self = 0 ->
  Node.callback self twist = inl ZeroDivisionError.
Proof.
  intros (Hx & Hy & Hz & Hm) Hr. unfold Node.callback.
  destruct (yawVel_returns self twist Hz Hm) as [yaw Hyaw].
  rewrite (callback_w_in_range self twist yaw Hx Hy Hyaw),
    (Node_InverseKinematics_zero_radius _ _ _ _ Hr). reflexivity.
Qed.

Lemma callback_overflow (self : Node.MecanumCmd) (twist : Twist) :
  ~ squares_in_range self twist ->
  Node.callback self twist = inl OverflowError.
Proof.
  intros Hn. unfold Node.callback.
  rewrite (callback_w_overflow self twist Hn). reflexivity.
Qed.

(** C2, as the code has it. Startup checks none of radius, alpha, beta and
    gearbox ratio: with a non-zero [angular_vel_div] the constructor
    succeeds and stores the four values as loaded, zero or negative ones
    too. *)
Theorem startup_accepts_any_geometry (ps : ParamServer) :
  get_param ps "angular_vel_div" 6 <> 0 ->
  exists self,
    Node.init ps = inr self /\
    Node.radius self = get_param ps "wheel_radius" 0.075 /\
    Node.alpha self = get_param ps "alpha" 0.31 /\
    Node.beta self = get_param ps "beta" 0.30 /\
    Node.gb_ratio self = get_param ps "gearbox_ratio" 15.0.
Proof.
  intros Hd. eexists. split; [exact (init_value ps Hd) |].
  repeat split; reflexivity.
Qed.

Lemma startup_accepts_any_geometry_witness :
  get_param [("wheel_radius", 0); ("alpha", -1)] "angular_vel_div" 6 <> 0 /\
  exists self,
    Node.init [("wheel_radius", 0); ("alpha", -1)] = inr self /\
    Node.radius self = 0 /\ Node.alpha self = -1.
Proof.
  assert (Hd : get_param [("wheel_radius", 0); ("alpha", -1)]
                 "angular_vel_div" 6 <> 0) by (cbn; lra).
  split; [exact Hd |].
  destruct (startup_accepts_any_geometry
              [("wheel_radius", 0); ("alpha", -1)] Hd)
    as (self & Hi & Hr & Ha & _ & _).
  exists self. cbn in Hr, Ha. auto.
Defined.

(** C2, as the specification states it, fails: a negative radius is
    accepted at startup and the next command is processed. *)
Lemma negative_radius_accepted :
  get_param [("wheel_radius", -1)] "wheel_radius" 0.075 <= 0 /\
  (exists self, Node.init [("wheel_radius", -1)] = inr self /\
                Node.radius self = -1) /\
  (exists out, Node.run1 [("wheel_radius", -1)] (twist_of 1 0 0) = inr out) /\
  ~ startup_rejects_bad_geometry.
Proof.
  assert (Hi : Node.init [("wheel_radius", -1)]
               = inr (Node.mkMecanumCmd 0.31 0.30 (-1) 1 (PI / 6) 15.0)).
  { rewrite init_value by (cbn; lra). reflexivity. }
  split; [cbn; lra |]. split; [eexists; split; [exact Hi | reflexivity] |].
  split.
  - unfold Node.run1. rewrite Hi, bind_inr.
    apply callback_ok; [| cbn [Node.radius]; lra].
    unfold squares_in_range.
    cbn [twist_of linear angular x y z Node.maxAngularVelocity].
    repeat split; try (apply small_sq_in_range; lra).
    exact default_limit_in_range.
  - intros Hclaim.
    destruct (Hclaim [("wheel_radius", -1)]) as [e He].
    + left. cbn. lra.
    + rewrite Hi in He. discriminate He.
Qed.

(** ** Particular commands *)

(** The zero vector is recomposed as the zero vector when the limit is not
    negative. *)
Lemma recomposed_zero (self : Node.MecanumCmd) (wz : R) :
  0 <= Node.maxLinearVelocity self ->
  xVel_value self (twist_of 0 0 wz) = 0 /\
  yVel_value self (twist_of 0 0 wz) = 0.
Proof.
  intros Hmax. apply (recomposed_unclamped self (twist_of 0 0 wz)).
  cbn [twist_of linear x y].
  replace (0 ^ 2 + 0 ^ 2) with 0 by ring. rewrite sqrt_0. exact Hmax.
Qed.

Lemma zero_sq_in_range : 0 ^ 2 <= float_max.
Proof. apply small_sq_in_range. lra. Qed.

(** C9, as the code has it. The zero command gives four wheel speeds equal
    to 0, and four messages with setpoint 0, for every geometry with a
    positive radius, a linear limit that is not negative and an angular
    limit whose square is in range. *)
Theorem zero_command_zero_speeds (self : Node.MecanumCmd) :
  0 < Node.radius self ->
  0 <= Node.maxLinearVelocity self ->
  Node.maxAngularVelocity self ^ 2 <= float_max ->
  Node.callback_w self (twist_of 0 0 0) = inr [0; 0; 0; 0] /\
  Node.callback self (twist_of 0 0 0) =
  inr [ ("roboteq_driver_FLW/cmd", mkCommand 0 0);
        ("roboteq_driver_FRW/cmd", mkCommand 0 0);
        ("roboteq_driver_RLW/cmd", mkCommand 0 0);
        ("roboteq_driver_RRW/cmd", mkCommand 0 0) ].
Proof.
  intros Hr Hmax Hm.
  assert (Hw : Node.callback_w self (twist_of 0 0 0) = inr [0; 0; 0; 0]).
  { rewrite (callback_w_in_range self (twist_of 0 0 0) 0);
      [| exact zero_sq_in_range | exact zero_sq_in_range
       | apply yawVel_unclamped;
         [exact zero_sq_in_range | exact Hm
         | cbn [twist_of angular z]; nra] ].
    destruct (recomposed_zero self 0 Hmax) as [-> ->].
    rewrite Node_InverseKinematics_rows by lra.
    entrywise ltac:(field; lra). }
  split; [exact Hw |].
  unfold Node.callback. rewrite Hw, bind_inr. reflexivity.
Qed.

Lemma zero_command_zero_speeds_witness :
  0 < Node.radius default_node /\
  0 <= Node.maxLinearVelocity default_node /\
  Node.callback_w default_node (twist_of 0 0 0) = inr [0; 0; 0; 0].
Proof.
  assert (Hr : 0 < Node.radius default_node) by (cbn; lra).
  assert (Hm : 0 <= Node.maxLinearVelocity default_node) by (cbn; lra).
  split; [exact Hr |]. split; [exact Hm |].
  exact (proj1 (zero_command_zero_speeds default_node Hr Hm
                  default_limit_in_range)).
Defined.

(** C9, as the specification states it, fails. A positive radius is not
    enough: with a negative linear limit the zero command is clamped to the
    limit and the wheels turn, and with an angular limit whose square is
    out of range the zero command raises. *)
Lemma zero_command_nonzero_speeds :
  0 < Node.radius (Node.mkMecanumCmd 0.31 0.30 0.075 (-1) (PI / 6) 15.0) /\
  Node.callback_w (Node.mkMecanumCmd 0.31 0.30 0.075 (-1) (PI / 6) 15.0)
                  (twist_of 0 0 0)
  = inr [100; -100; 100; -100] /\
  0 < Node.radius (Node.mkMecanumCmd 0.31 0.30 0.075 1 (2 ^ 600) 15.0) /\
  Node.callback_w (Node.mkMecanumCmd 0.31 0.30 0.075 1 (2 ^ 600) 15.0)
                  (twist_of 0 0 0)
  = inl OverflowError.
Proof.
  split; [cbn [Node.radius]; lra |]. split; [| split].
  - set (self := Node.mkMecanumCmd 0.31 0.30 0.075 (-1) (PI / 6) 15.0).
    rewrite (callback_w_in_range self (twist_of 0 0 0) 0);
      [| exact zero_sq_in_range | exact zero_sq_in_range
       | apply yawVel_unclamped;
         [exact zero_sq_in_range | exact default_limit_in_range
         | cbn [twist_of angular z self Node.maxAngularVelocity];
           pose proof PI_RGT_0; nra] ].
    assert (Hv : vLinear_value self (twist_of 0 0 0) = -1).
    { rewrite vLinear_clamped; [reflexivity |].
      cbn [twist_of linear x y self Node.maxLinearVelocity].
      pose proof (sqrt_pos (0 ^ 2 + 0 ^ 2)). lra. }
    unfold xVel_value, yVel_value, Node.callback_Heading, atan2.
    rewrite Hv. cbn [twist_of linear x y].
    destruct (Rlt_dec 0 0) as [F | _]; [lra |].
    rewrite cos_0, sin_0.
    rewrite Node_InverseKinematics_rows by (cbn [self Node.radius]; lra).
    cbn [self Node.gb_ratio Node.radius Node.alpha Node.beta].
    entrywise lra.
  - cbn [Node.radius]. lra.
  - apply callback_w_overflow. intros (_ & _ & _ & Hm).
    cbn [Node.maxAngularVelocity] in Hm.
    pose proof huge_sq_out_of_range. lra.
Qed.

(** The pure yaw command of rate 1 at the default geometry: the yaw rate is
    clamped to pi/6 and the four wheel speeds are one and the same value. *)
Lemma pure_yaw_speeds :
  Node.callback_w default_node (twist_of 0 0 1)
  = inr [61 * (PI / 6); 61 * (PI / 6); 61 * (PI / 6); 61 * (PI / 6)].
Proof.
  rewrite (callback_w_in_range default_node (twist_of 0 0 1)
             (PI / 6 * sgn 1));
    [| exact zero_sq_in_range | exact zero_sq_in_range
     | apply (yawVel_clamped default_node (twist_of 0 0 1));
       [apply small_sq_in_range; cbn [twist_of angular z]; lra
       | exact default_limit_in_range
       | cbn [twist_of angular z default_node Node.maxAngularVelocity];
         pose proof PI_over_6_sqr; lra] ].
  destruct (recomposed_zero default_node 1) as [-> ->]; [cbn; lra |].
  rewrite Node_InverseKinematics_rows by (cbn; lra).
  cbn [default_node Node.gb_ratio Node.radius Node.alpha Node.beta].
  unfold sgn. destruct (Rlt_dec 0 1) as [_ | N]; [| lra].
  entrywise lra.
Qed.

(** C5, as the code has it. For the pure yaw command (0, 0, 1) at the
    default geometry the four wheel speeds are equal, 61 * pi/6 each (61
    from the transform alone at yaw rate 1): left and right sides have the
    same sign and magnitude, front and rear agree. The raw dot products of
    the left and right rows are opposite; the factor (-1)^k cancels it. *)
Theorem pure_yaw_all_equal :
  Node.callback_w default_node (twist_of 0 0 1)
  = inr [61 * (PI / 6); 61 * (PI / 6); 61 * (PI / 6); 61 * (PI / 6)] /\
  Node.InverseKinematics default_node 0 0 1 = inr [61; 61; 61; 61] /\
  0 < 61 * (PI / 6) /\
  dot3 (spec_row 0.31 0.30 0) 0 0 1 = - dot3 (spec_row 0.31 0.30 1) 0 0 1 /\
  dot3 (spec_row 0.31 0.30 2) 0 0 1 = - dot3 (spec_row 0.31 0.30 3) 0 0 1.
Proof.
  split; [exact pure_yaw_speeds |]. split.
  - rewrite Node_InverseKinematics_rows by (cbn; lra).
    cbn [default_node Node.gb_ratio Node.radius Node.alpha Node.beta].
    entrywise lra.
  - split; [pose proof PI_RGT_0; lra |].
    cbn [spec_row dot3]. split; ring.
Qed.

(** C5, as the specification states it, fails: left and right wheel speeds
    do not have opposite signs. *)
Lemma pure_yaw_sides_not_opposed :
  exists w,
    Node.callback_w default_node (twist_of 0 0 1) = inr w /\
    getitem w 0 = getitem w 1 /\ 0 < getitem w 0 /\
    ~ sides_opposed w.
Proof.
  eexists. split; [exact pure_yaw_speeds |].
  cbn [getitem nth]. pose proof PI_RGT_0 as Hpi.
  split; [reflexivity |]. split; [lra |].
  unfold sides_opposed. cbn [getitem nth]. intros [H _]. nra.
Qed.


(** ** Command path and feedback path *)

Lemma Test_InverseKinematics_rows (self : Test.MecanumCmd) (xVel yVel yawVel : R) :
  Test.radius self <> 0 ->
  Test.InverseKinematics self xVel yVel yawVel =
  inr [ 1 * (1 / Test.radius self) *
          (1 * xVel + -1 * yVel + -1 * (Test.alpha self + Test.beta self) * yawVel);
        -1 * (1 / Test.radius self) *
          (1 * xVel + 1 * yVel + (Test.alpha self + Test.beta self) * yawVel);
        1 * (1 / Test.radius self) *
          (1 * xVel + 1 * yVel + -1 * (Test.alpha self + Test.beta self) * yawVel);
        -1 * (1 / Test.radius self) *
          (1 * xVel + -1 * yVel + (Test.alpha self + Test.beta self) * yawVel) ].
Proof.
  intros Hr.
  unfold Test.InverseKinematics, for_range.
  cbn. rewrite (py_div_ok 1 _ Hr). cbn.
  entrywise ltac:(ring).
Qed.

(** C6. For one velocity triple and the same alpha, beta and radius, each
    wheel speed of the command path is [-(gearboxRatio / 2)] times the wheel
    speed of the feedback path. *)
Theorem command_is_scaled_feedback
    (cmd : Node.MecanumCmd) (fb : Test.MecanumCmd) (xVel yVel yawVel : R) :
  Node.alpha cmd = Test.alpha fb ->
  Node.beta cmd = Test.beta fb ->
  Node.radius cmd = Test.radius fb ->
  Node.radius cmd <> 0 ->
  exists wc wf,
    Node.InverseKinematics cmd xVel yVel yawVel = inr wc /\
    Test.InverseKinematics fb xVel yVel yawVel = inr wf /\
    List.length wc = 4%nat /\ List.length wf = 4%nat /\
    forall k, (k < 4)%nat ->
      getitem wc k = - (Node.gb_ratio cmd / 2) * getitem wf k.
Proof.
  intros Ha Hb Hr Hnz.
  assert (Hnz' : Test.radius fb <> 0) by (rewrite <- Hr; exact Hnz).
  do 2 eexists.
  split; [exact (Node_InverseKinematics_rows cmd xVel yVel yawVel Hnz) |].
  split; [exact (Test_InverseKinematics_rows fb xVel yVel yawVel Hnz') |].
  split; [reflexivity |]. split; [reflexivity |].
  intros k Hk. rewrite Ha, Hb, Hr.
  destruct k as [| [| [| [| k]]]]; [| | | | lia]; cbn [getitem nth]; field;
    exact Hnz'.
Qed.

Lemma command_is_scaled_feedback_witness :
  Node.alpha default_node = Test.alpha Test.init /\
  Node.beta default_node = Test.beta Test.init /\
  Node.radius default_node = Test.radius Test.init /\
  Node.radius default_node <> 0 /\
  exists wc wf,
    Node.InverseKinematics default_node 1 0 0 = inr wc /\
    Test.InverseKinematics Test.init 1 0 0 = inr wf /\
    forall k, (k < 4)%nat -> getitem wc k = - (15.0 / 2) * getitem wf k.
Proof.
  assert (Ha : Node.alpha default_node = Test.alpha Test.init) by reflexivity.
  assert (Hb : Node.beta default_node = Test.beta Test.init) by (cbn; lra).
  assert (Hr : Node.radius default_node = Test.radius Test.init) by (cbn; lra).
  assert (Hnz : Node.radius default_node <> 0) by (cbn; lra).
  do 4 (split; [assumption |]).
  destruct (command_is_scaled_feedback default_node Test.init 1 0 0 Ha Hb Hr Hnz)
    as (wc & wf & Hc & Hf & _ & _ & Hk).
  exists wc, wf. auto.
Defined.

(** ** The uniform bound *)

Lemma abs_pair_bound (X Y v : R) :
  X ^ 2 + Y ^ 2 = v ^ 2 -> 0 <= v -> Rabs X + Rabs Y <= sqrt 2 * v.
Proof.
  intros Hs Hv.
  assert (H2 : sqrt 2 * sqrt 2 = 2) by (apply sqrt_sqrt; lra).
  assert (Hp : 0 <= sqrt 2) by apply sqrt_pos.
  pose proof (Rabs_pos X) as HX. pose proof (Rabs_pos Y) as HY.
  assert (HXX : Rabs X * Rabs X = X * X)
    by (unfold Rabs; destruct (Rcase_abs X); ring).
  assert (HYY : Rabs Y * Rabs Y = Y * Y)
    by (unfold Rabs; destruct (Rcase_abs Y); ring).
  apply Rsqr_incr_0_var; [| now apply Rmult_le_pos].
  unfold Rsqr.
  replace (sqrt 2 * v * (sqrt 2 * v)) with (sqrt 2 * sqrt 2 * (v * v)) by ring.
  rewrite H2.
  pose proof (Rle_0_sqr (Rabs X - Rabs Y)) as Hsq. unfold Rsqr in Hsq.
  simpl in Hs. nra.
Qed.

(** A row with coefficients of absolute value 1, 1 and [ab]. *)
Lemma row_abs_bound (sy sw ab X Y yaw : R) :
  (sy = 1 \/ sy = -1) -> (sw = 1 \/ sw = -1) -> 0 <= ab ->
  Rabs (X + sy * Y + sw * ab * yaw) <= Rabs X + Rabs Y + ab * Rabs yaw.
Proof.
  intros Hy Hw Hab.
  assert (HT : ab * Rabs yaw = Rabs (ab * yaw))
    by (rewrite Rabs_mult, (Rabs_pos_eq ab Hab); reflexivity).
  rewrite HT.
  replace (sw * ab * yaw) with (sw * (ab * yaw)) by ring.
  generalize (ab * yaw) as T. intros T.
  destruct Hy as [-> | ->], Hw as [-> | ->]; unfold Rabs;
    repeat match goal with
           | |- context [Rcase_abs ?a] => destruct (Rcase_abs a)
           end;
    lra.
Qed.







(** * Further properties of the node *)

(** ** Startup and failure *)

Lemma get_param_unset (ps : ParamServer) (name : string) (default : R) :
  unset ps name -> get_param ps name default = default.
Proof.
  unfold unset. induction ps as [| [n v] rest IH]; intros Hn; [reflexivity |].
  cbn [get_param]. destruct (String.eqb_spec n name) as [E | _].
  - exfalso. apply Hn. left. exact E.
  - apply IH. intros Hin. apply Hn. right. exact Hin.
Qed.

(** The constructor raises exactly when [angular_vel_div] is zero; in every
    other case the angular limit it stores is pi over that divisor. *)
Theorem init_raises_iff_zero_divisor (ps : ParamServer) :
  (Node.init ps = inl ZeroDivisionError
   <-> get_param ps "angular_vel_div" 6 = 0) /\
  (forall self, Node.init ps = inr self ->
     Node.maxAngularVelocity self = PI / get_param ps "angular_vel_div" 6 /\
     Node.maxLinearVelocity self = get_param ps "max_linear_vel" 1).
Proof.
  destruct (Req_dec_T (get_param ps "angular_vel_div" 6) 0) as [Hz | Hnz].
  - pose proof (init_zero_divisor ps Hz) as Hi. split.
    + split; [intros _; exact Hz | intros _; exact Hi].
    + intros self Hs. rewrite Hi in Hs. discriminate Hs.
  - pose proof (init_value ps Hnz) as Hi. split.
    + split; [intros He; rewrite Hi in He; discriminate He | contradiction].
    + intros self Hs. rewrite Hi in Hs. injection Hs as <-.
      split; reflexivity.
Qed.

Lemma init_raises_iff_zero_divisor_witness :
  Node.init [("angular_vel_div", 0)] = inl ZeroDivisionError /\
  (Node.init [("angular_vel_div", 3)]
   = inr (Node.mkMecanumCmd 0.31 0.30 0.075 1 (PI / 3) 15.0) /\
   PI / 3 = PI / get_param [("angular_vel_div", 3)] "angular_vel_div" 6).
Proof.
  split.
  - apply (proj1 (init_raises_iff_zero_divisor [("angular_vel_div", 0)])).
    reflexivity.
  - assert (Hi : Node.init [("angular_vel_div", 3)]
                 = inr (Node.mkMecanumCmd 0.31 0.30 0.075 1 (PI / 3) 15.0)).
    { rewrite init_value by (cbn; lra). reflexivity. }
    split; [exact Hi |].
    exact (proj1 (proj2 (init_raises_iff_zero_divisor [("angular_vel_div", 3)])
                    _ Hi)).
Defined.

(** When none of the six parameters is set, whatever else the parameter
    server holds, startup succeeds with the defaults written in [__init__]. *)
Theorem init_defaults_when_unset (ps : ParamServer) :
  unset ps "alpha" -> unset ps "beta" -> unset ps "wheel_radius" ->
  unset ps "max_linear_vel" -> unset ps "angular_vel_div" ->
  unset ps "gearbox_ratio" ->
  Node.init ps = inr default_node.
Proof.
  intros Ha Hb Hr Hl Hd Hg.
  rewrite init_value by (rewrite (get_param_unset _ _ _ Hd); lra).
  rewrite (get_param_unset _ _ _ Ha), (get_param_unset _ _ _ Hb),
    (get_param_unset _ _ _ Hr), (get_param_unset _ _ _ Hl),
    (get_param_unset _ _ _ Hd), (get_param_unset _ _ _ Hg).
  reflexivity.
Qed.

Lemma unset_elsewhere (name : string) :
  name <> "robot_name" -> name <> "rate" ->
  unset [("robot_name", 1); ("rate", 50)] name.
Proof.
  intros H1 H2 [E | [E | []]]; cbn in E; congruence.
Qed.

Lemma init_defaults_when_unset_witness :
  Node.init [("robot_name", 1); ("rate", 50)] = inr default_node.
Proof.
  apply init_defaults_when_unset; apply unset_elsewhere; discriminate.
Defined.

(** What a call of [callback] does, case by case. It raises
    [OverflowError] exactly when one of the four squares of lines 51 and 67
    is out of range, raises [ZeroDivisionError] exactly when they are in
    range and the radius is zero, and returns its messages exactly when
    they are in range and the radius is not zero. *)
Theorem callback_error_behaviour (self : Node.MecanumCmd) (twist : Twist) :
  (Node.callback self twist = inl OverflowError
   <-> ~ squares_in_range self twist) /\
  (Node.callback self twist = inl ZeroDivisionError
   <-> squares_in_range self twist /\ Node.radius self = 0) /\
  ((exists out, Node.callback self twist = inr out)
   <-> squares_in_range self twist /\ Node.radius self <> 0).
Proof.
  assert (Hdec : squares_in_range self twist \/ ~ squares_in_range self twist).
  { unfold squares_in_range.
    destruct (Rle_dec (x (linear twist) ^ 2) float_max);
      destruct (Rle_dec (y (linear twist) ^ 2) float_max);
      destruct (Rle_dec (z (angular twist) ^ 2) float_max);
      destruct (Rle_dec (Node.maxAngularVelocity self ^ 2) float_max);
      tauto. }
  destruct Hdec as [Hin | Hout].
  - destruct (Req_dec_T (Node.radius self) 0) as [Hz | Hnz].
    + rewrite (callback_zero_radius self twist Hin Hz).
      split; [split; [discriminate | tauto] |].
      split; [split; [tauto | reflexivity] |].
      split; [intros [out Ho]; discriminate Ho | tauto].
    + destruct (callback_ok self twist Hin Hnz) as [out Ho]. rewrite Ho.
      split; [split; [discriminate | tauto] |].
      split; [split; [discriminate | tauto] |].
      split; [tauto | intros _; exists out; reflexivity].
  - rewrite (callback_overflow self twist Hout).
    split; [split; [tauto | reflexivity] |].
    split; [split; [discriminate | tauto] |].
    split; [intros [out Ho]; discriminate Ho | tauto].
Qed.

Lemma callback_error_behaviour_witness :
  Node.callback default_node (twist_of (2 ^ 600) 0 0) = inl OverflowError /\
  Node.callback (Node.mkMecanumCmd 0.31 0.30 0 1 (PI / 6) 15.0)
                (twist_of 1 2 3) = inl ZeroDivisionError /\
  exists out, Node.callback default_node (twist_of 1 2 3) = inr out.
Proof.
  split; [| split].
  - apply (proj1 (callback_error_behaviour default_node
                    (twist_of (2 ^ 600) 0 0))).
    intros (Hx & _). cbn [twist_of linear x] in Hx.
    pose proof huge_sq_out_of_range. lra.
  - apply (proj1 (proj2 (callback_error_behaviour
                           (Node.mkMecanumCmd 0.31 0.30 0 1 (PI / 6) 15.0)
                           (twist_of 1 2 3)))).
    split; [| reflexivity].
    unfold squares_in_range.
    cbn [twist_of linear angular x y z Node.maxAngularVelocity].
    repeat split; try (apply small_sq_in_range; lra).
    exact default_limit_in_range.
  - apply (proj2 (proj2 (callback_error_behaviour default_node
                           (twist_of 1 2 3)))).
    split; [apply small_command_in_range; lra | cbn [default_node Node.radius]; lra].
Defined.

(** ** The transform as a linear map *)

Lemma getitem_past_four (a b c d : R) (k : nat) :
  getitem [a; b; c; d] (S (S (S (S k)))) = 0.
Proof. unfold getitem. cbn [nth]. destruct k; reflexivity. Qed.

(** [InverseKinematics] is linear in the velocity triple: the wheel speeds
    of [a * u + v] are [a] times those of [u] plus those of [v]. *)
Theorem InverseKinematics_linear
    (self : Node.MecanumCmd) (a x1 y1 w1 x2 y2 w2 : R) :
  Node.radius self <> 0 ->
  exists u v s,
    Node.InverseKinematics self x1 y1 w1 = inr u /\
    Node.InverseKinematics self x2 y2 w2 = inr v /\
    Node.InverseKinematics self (a * x1 + x2) (a * y1 + y2) (a * w1 + w2)
      = inr s /\
    forall k, getitem s k = a * getitem u k + getitem v k.
Proof.
  intros Hr. do 3 eexists.
  split; [exact (Node_InverseKinematics_rows self _ _ _ Hr) |].
  split; [exact (Node_InverseKinematics_rows self _ _ _ Hr) |].
  split; [exact (Node_InverseKinematics_rows self _ _ _ Hr) |].
  intros k. destruct k as [| [| [| [| k]]]].
  1-4: cbn [getitem nth]; ring.
  rewrite !getitem_past_four. ring.
Qed.

Lemma InverseKinematics_linear_witness :
  Node.radius default_node <> 0 /\
  exists u v s,
    Node.InverseKinematics default_node 1 0 0 = inr u /\
    Node.InverseKinematics default_node 0 1 2 = inr v /\
    Node.InverseKinematics default_node (3 * 1 + 0) (3 * 0 + 1) (3 * 0 + 2)
      = inr s /\
    forall k, getitem s k = 3 * getitem u k + getitem v k.
Proof.
  assert (Hr : Node.radius default_node <> 0) by (cbn; lra).
  split; [exact Hr |].
  exact (InverseKinematics_linear default_node 3 1 0 0 0 1 2 Hr).
Defined.

(** The four wheel speeds are never independent: for every velocity triple
    the front-left and rear-right speeds add up to the front-right and
    rear-left ones. *)
Theorem InverseKinematics_diagonals_agree
    (self : Node.MecanumCmd) (xVel yVel yawVel : R) (w : list R) :
  Node.InverseKinematics self xVel yVel yawVel = inr w ->
  getitem w 0 + getitem w 3 = getitem w 1 + getitem w 2.
Proof.
  intros Hw.
  destruct (Req_dec_T (Node.radius self) 0) as [Hz | Hnz].
  - rewrite (Node_InverseKinematics_zero_radius _ _ _ _ Hz) in Hw.
    discriminate Hw.
  - rewrite (Node_InverseKinematics_rows _ _ _ _ Hnz) in Hw.
    injection Hw as <-. cbn [getitem nth]. field. exact Hnz.
Qed.

Lemma InverseKinematics_diagonals_agree_witness :
  exists w,
    Node.InverseKinematics default_node 1 2 3 = inr w /\
    getitem w 0 + getitem w 3 = getitem w 1 + getitem w 2.
Proof.
  eexists. split.
  - apply Node_InverseKinematics_rows. cbn. lra.
  - apply (InverseKinematics_diagonals_agree default_node 1 2 3).
    apply Node_InverseKinematics_rows. cbn. lra.
Defined.

(** With a radius, a gearbox ratio and [alpha + beta] all different from
    zero, the wheel speeds determine the velocity triple: two triples with
    the same wheel speeds are equal. *)
Theorem InverseKinematics_injective
    (self : Node.MecanumCmd) (x1 y1 w1 x2 y2 w2 : R) (w : list R) :
  Node.radius self <> 0 ->
  Node.gb_ratio self <> 0 ->
  Node.alpha self + Node.beta self <> 0 ->
  Node.InverseKinematics self x1 y1 w1 = inr w ->
  Node.InverseKinematics self x2 y2 w2 = inr w ->
  x1 = x2 /\ y1 = y2 /\ w1 = w2.
Proof.
  intros Hr Hg Hab H1 H2.
  rewrite (Node_InverseKinematics_rows _ _ _ _ Hr) in H1.
  rewrite (Node_InverseKinematics_rows _ _ _ _ Hr) in H2.
  rewrite <- H1 in H2. clear H1.
  injection H2 as E0 E1 E2 E3.
  set (ab := Node.alpha self + Node.beta self) in *.
  assert (Hc : / Node.radius self <> 0) by now apply Rinv_neq_0_compat.
  assert (Hp : (- Node.gb_ratio self) / 2 * 1 * (1 / Node.radius self) <> 0).
  { unfold Rdiv. rewrite !Rmult_1_r, Rmult_1_l.
    repeat apply Rmult_integral_contrapositive_currified; lra. }
  assert (Hq : (- Node.gb_ratio self) / 2 * -1 * (1 / Node.radius self) <> 0).
  { unfold Rdiv. rewrite Rmult_1_l.
    repeat apply Rmult_integral_contrapositive_currified; lra. }
  apply (Rmult_eq_reg_l _ _ _) in E0; [| exact Hp].
  apply (Rmult_eq_reg_l _ _ _) in E1; [| exact Hq].
  apply (Rmult_eq_reg_l _ _ _) in E2; [| exact Hp].
  assert (Hx : x1 = x2) by lra.
  assert (Hy : y1 = y2) by lra.
  split; [exact Hx |]. split; [exact Hy |].
  apply (Rmult_eq_reg_l ab); [lra | exact Hab].
Qed.

Lemma InverseKinematics_injective_witness :
  Node.InverseKinematics default_node 1 2 3
  = Node.InverseKinematics default_node 1 2 3 /\
  1 = 1 /\ 2 = 2 /\ 3 = 3.
Proof.
  assert (Hr : Node.radius default_node <> 0) by (cbn; lra).
  assert (Hg : Node.gb_ratio default_node <> 0) by (cbn; lra).
  assert (Hab : Node.alpha default_node + Node.beta default_node <> 0)
    by (cbn; lra).
  split; [reflexivity |].
  exact (InverseKinematics_injective default_node 1 2 3 1 2 3 _ Hr Hg Hab
           (Node_InverseKinematics_rows default_node 1 2 3 Hr)
           (Node_InverseKinematics_rows default_node 1 2 3 Hr)).
Defined.

(** ** Motion patterns *)

(** A command without lateral part is recomposed without lateral part. *)
Lemma yVel_of_forward (self : Node.MecanumCmd) (vx wz : R) :
  yVel_value self (twist_of vx 0 wz) = 0.
Proof.
  destruct (Req_dec_T (sqrt (vx ^ 2 + 0 ^ 2)) 0) as [H0 | H0].
  - destruct (magnitude_zero vx 0 H0) as [-> _].
    unfold yVel_value, Node.callback_Heading, atan2.
    cbn [twist_of linear x y].
    destruct (Rlt_dec 0 0) as [F | _]; [lra |]. rewrite sin_0. ring.
  - assert (Hm : 0 < sqrt (vx ^ 2 + 0 ^ 2)).
    { pose proof (sqrt_pos (vx ^ 2 + 0 ^ 2)). lra. }
    destruct (recomposed_scaled self (twist_of vx 0 wz) Hm) as [_ ->].
    cbn [twist_of linear y]. ring.
Qed.

(** A command straight ahead, with a square in range: the two left wheels
    get one speed and the two right wheels the opposite speed. *)
Theorem forward_command_pattern (self : Node.MecanumCmd) (vx : R) :
  Node.radius self <> 0 ->
  0 <= vx -> vx ^ 2 <= float_max ->
  Node.maxAngularVelocity self ^ 2 <= float_max ->
  exists w,
    Node.callback_w self (twist_of vx 0 0) = inr w /\
    getitem w 0 = getitem w 2 /\ getitem w 1 = getitem w 3 /\
    getitem w 1 = - getitem w 0.
Proof.
  intros Hr _ Hx Hm.
  rewrite (callback_w_in_range self (twist_of vx 0 0) 0);
    [| exact Hx | exact zero_sq_in_range
     | apply yawVel_unclamped;
       [exact zero_sq_in_range | exact Hm | cbn [twist_of angular z]; nra] ].
  rewrite yVel_of_forward, (Node_InverseKinematics_rows _ _ _ _ Hr).
  eexists. split; [reflexivity |].
  cbn [getitem nth]. repeat split; field; exact Hr.
Qed.

Lemma forward_command_pattern_witness :
  Node.radius default_node <> 0 /\
  exists w,
    Node.callback_w default_node (twist_of 7 0 0) = inr w /\
    getitem w 0 = getitem w 2 /\ getitem w 1 = getitem w 3 /\
    getitem w 1 = - getitem w 0.
Proof.
  assert (Hr : Node.radius default_node <> 0) by (cbn; lra).
  split; [exact Hr |].
  apply (forward_command_pattern default_node 7 Hr);
    [lra | apply small_sq_in_range; lra | exact default_limit_in_range].
Defined.

(** A pure rotation command whose squares are in range, for any geometry
    with a linear limit that is not negative: the four wheels get one and
    the same speed. *)
Theorem rotation_command_pattern (self : Node.MecanumCmd) (wz : R) :
  Node.radius self <> 0 ->
  0 <= Node.maxLinearVelocity self ->
  wz ^ 2 <= float_max ->
  Node.maxAngularVelocity self ^ 2 <= float_max ->
  exists w,
    Node.callback_w self (twist_of 0 0 wz) = inr w /\
    getitem w 0 = getitem w 1 /\ getitem w 1 = getitem w 2 /\
    getitem w 2 = getitem w 3.
Proof.
  intros Hr Hmax Hz Hm.
  destruct (yawVel_returns self (twist_of 0 0 wz) Hz Hm) as [yaw Hyaw].
  rewrite (callback_w_in_range self (twist_of 0 0 wz) yaw
             zero_sq_in_range zero_sq_in_range Hyaw).
  destruct (recomposed_zero self wz Hmax) as [-> ->].
  rewrite (Node_InverseKinematics_rows _ _ _ _ Hr).
  eexists. split; [reflexivity |].
  cbn [getitem nth]. repeat split; field; exact Hr.
Qed.

Lemma rotation_command_pattern_witness :
  Node.radius default_node <> 0 /\
  0 <= Node.maxLinearVelocity default_node /\
  exists w,
    Node.callback_w default_node (twist_of 0 0 (-0.2)) = inr w /\
    getitem w 0 = getitem w 1 /\ getitem w 1 = getitem w 2 /\
    getitem w 2 = getitem w 3.
Proof.
  assert (Hr : Node.radius default_node <> 0) by (cbn; lra).
  assert (Hm : 0 <= Node.maxLinearVelocity default_node) by (cbn; lra).
  split; [exact Hr |]. split; [exact Hm |].
  apply (rotation_command_pattern default_node (-0.2) Hr Hm);
    [apply small_sq_in_range; lra | exact default_limit_in_range].
Defined.

(** ** How the clamps compose *)

Lemma callback_w_within_limits (self : Node.MecanumCmd) (twist : Twist) :
  squares_in_range self twist ->
  sqrt (x (linear twist) ^ 2 + y (linear twist) ^ 2)
    <= Node.maxLinearVelocity self ->
  z (angular twist) ^ 2 <= Node.maxAngularVelocity self ^ 2 ->
  Node.callback_w self twist
  = Node.InverseKinematics self (x (linear twist)) (y (linear twist))
                           (z (angular twist)).
Proof.
  intros (Hx & Hy & Hz & Hm) Hl Ha.
  rewrite (callback_w_in_range self twist (z (angular twist)) Hx Hy)
    by (apply yawVel_unclamped; [exact Hz | exact Hm | lra]).
  destruct (recomposed_unclamped self twist Hl) as [-> ->]. reflexivity.
Qed.

(** A command within both limits, the boundary included, and with its
    squares in range reaches the transform as it is: nothing is clamped and
    nothing is rescaled. *)
Theorem command_within_limits_unchanged
    (self : Node.MecanumCmd) (twist : Twist) :
  squares_in_range self twist ->
  sqrt (x (linear twist) ^ 2 + y (linear twist) ^ 2)
    <= Node.maxLinearVelocity self ->
  z (angular twist) ^ 2 <= Node.maxAngularVelocity self ^ 2 ->
  Node.callback_w self twist
  = Node.InverseKinematics self (x (linear twist)) (y (linear twist))
                           (z (angular twist)).
Proof. exact (callback_w_within_limits self twist). Qed.

Lemma command_within_limits_unchanged_witness :
  Node.callback_w default_node (twist_of 0.6 0.8 0.5)
  = Node.InverseKinematics default_node 0.6 0.8 0.5.
Proof.
  apply (command_within_limits_unchanged default_node (twist_of 0.6 0.8 0.5)).
  - apply small_command_in_range; lra.
  - cbn [twist_of linear x y default_node Node.maxLinearVelocity].
    rewrite sqrt_unit. lra.
  - cbn [twist_of angular z default_node Node.maxAngularVelocity].
    pose proof PI2_3_2. nra.
Defined.

(** The recomposed vector is no longer than the command, component by
    component, when the limit is not negative. *)
Lemma recomposed_sq_le (self : Node.MecanumCmd) (twist : Twist) :
  0 <= Node.maxLinearVelocity self ->
  xVel_value self twist ^ 2 <= x (linear twist) ^ 2 /\
  yVel_value self twist ^ 2 <= y (linear twist) ^ 2.
Proof.
  intros Hmax.
  pose proof (vLinear_nonneg self twist Hmax) as Hv0.
  pose proof (vLinear_le_magnitude self twist) as Hv1.
  destruct (Req_dec_T (sqrt (x (linear twist) ^ 2 + y (linear twist) ^ 2)) 0)
    as [H0 | H0].
  - destruct (recomposed_unclamped self twist) as [-> ->]; [lra | lra].
  - assert (Hm : 0 < sqrt (x (linear twist) ^ 2 + y (linear twist) ^ 2)).
    { pose proof (sqrt_pos (x (linear twist) ^ 2 + y (linear twist) ^ 2)).
      lra. }
    destruct (recomposed_scaled self twist Hm) as [-> ->].
    set (m := sqrt (x (linear twist) ^ 2 + y (linear twist) ^ 2)) in *.
    set (v := vLinear_value self twist) in *.
    assert (Hq : 0 <= v / m <= 1).
    { split; [apply Rmult_le_pos; [lra | left; now apply Rinv_0_lt_compat] |].
      apply (Rmult_le_reg_r m); [exact Hm |].
      unfold Rdiv. rewrite Rmult_assoc, Rinv_l by lra. lra. }
    generalize dependent (v / m). intros q Hq.
    assert (Hqq : 0 <= 1 - q * q) by nra.
    pose proof (pow2_ge_0 (x (linear twist))) as Hx2.
    pose proof (pow2_ge_0 (y (linear twist))) as Hy2.
    split.
    + replace ((q * x (linear twist)) ^ 2)
        with (q * q * x (linear twist) ^ 2) by ring.
      pose proof (Rmult_le_pos _ _ Hqq Hx2). lra.
    + replace ((q * y (linear twist)) ^ 2)
        with (q * q * y (linear twist) ^ 2) by ring.
      pose proof (Rmult_le_pos _ _ Hqq Hy2). lra.
Qed.

(** Clamping twice is clamping once: the clamped command, sent again, is
    within both limits and gives the same wheel speeds. *)
Theorem clamp_idempotent (self : Node.MecanumCmd) (twist : Twist) :
  0 <= Node.maxLinearVelocity self ->
  0 <= Node.maxAngularVelocity self ->
  squares_in_range self twist ->
  exists xVel yVel yawVel,
    Node.callback_xVel self twist = inr xVel /\
    Node.callback_yVel self twist = inr yVel /\
    Node.callback_yawVel self twist = inr yawVel /\
    Node.callback_w self (twist_of xVel yVel yawVel)
    = Node.callback_w self twist.
Proof.
  intros Hl Ha (Hx & Hy & Hz & Hm).
  destruct (yawVel_returns self twist Hz Hm) as [yaw Hyaw].
  exists (xVel_value self twist), (yVel_value self twist), yaw.
  split; [exact (callback_xVel_ok self twist Hx Hy) |].
  split; [exact (callback_yVel_ok self twist Hx Hy) |].
  split; [exact Hyaw |].
  pose proof (yawVel_bounded self twist yaw Ha Hyaw) as Hb.
  destruct (recomposed_sq_le self twist Hl) as [Hxs Hys].
  assert (Hy2 : yaw ^ 2 = Rabs yaw ^ 2)
    by (unfold Rabs; destruct (Rcase_abs yaw); ring).
  assert (Hyy : yaw ^ 2 <= Node.maxAngularVelocity self ^ 2).
  { pose proof (Rabs_pos yaw). rewrite Hy2. nra. }
  rewrite callback_w_within_limits.
  - cbn [twist_of linear angular x y z].
    rewrite (callback_w_in_range self twist yaw Hx Hy Hyaw). reflexivity.
  - unfold squares_in_range. cbn [twist_of linear angular x y z].
    repeat split; lra.
  - cbn [twist_of linear x y]. rewrite recomposed_sqr.
    replace (vLinear_value self twist ^ 2)
      with (Rsqr (vLinear_value self twist)) by (unfold Rsqr; ring).
    rewrite sqrt_Rsqr by now apply vLinear_nonneg.
    apply vLinear_le_max.
  - cbn [twist_of angular z]. exact Hyy.
Qed.

Lemma clamp_idempotent_witness :
  0 <= Node.maxLinearVelocity default_node /\
  0 <= Node.maxAngularVelocity default_node /\
  exists xVel yVel yawVel,
    Node.callback_xVel default_node (twist_of 30 (-40) 9) = inr xVel /\
    Node.callback_yVel default_node (twist_of 30 (-40) 9) = inr yVel /\
    Node.callback_yawVel default_node (twist_of 30 (-40) 9) = inr yawVel /\
    Node.callback_w default_node (twist_of xVel yVel yawVel)
    = Node.callback_w default_node (twist_of 30 (-40) 9).
Proof.
  assert (Hl : 0 <= Node.maxLinearVelocity default_node) by (cbn; lra).
  assert (Ha : 0 <= Node.maxAngularVelocity default_node)
    by (cbn; pose proof PI_RGT_0; lra).
  split; [exact Hl |]. split; [exact Ha |].
  apply (clamp_idempotent default_node (twist_of 30 (-40) 9) Hl Ha).
  apply small_command_in_range; lra.
Defined.

Lemma magnitude_scaled (c vx vy : R) :
  0 <= c ->
  sqrt ((c * vx) ^ 2 + (c * vy) ^ 2) = c * sqrt (vx ^ 2 + vy ^ 2).
Proof.
  intros Hc.
  replace ((c * vx) ^ 2 + (c * vy) ^ 2) with (Rsqr c * (vx ^ 2 + vy ^ 2))
    by (unfold Rsqr; ring).
  rewrite sqrt_mult_alt by apply Rle_0_sqr.
  now rewrite sqrt_Rsqr.
Qed.

(** Once the linear part is saturated, a larger command in the same
    direction, as long as its squares stay in range, changes nothing: the
    output depends on the direction only. *)
Theorem saturated_command_scale_free
    (self : Node.MecanumCmd) (c vx vy wz : R) :
  1 <= c ->
  sqrt (vx ^ 2 + vy ^ 2) > Node.maxLinearVelocity self ->
  (c * vx) ^ 2 <= float_max -> (c * vy) ^ 2 <= float_max ->
  (exists xVel yVel,
     Node.callback_xVel self (twist_of vx vy wz) = inr xVel /\
     Node.callback_xVel self (twist_of (c * vx) (c * vy) wz) = inr xVel /\
     Node.callback_yVel self (twist_of vx vy wz) = inr yVel /\
     Node.callback_yVel self (twist_of (c * vx) (c * vy) wz) = inr yVel) /\
  Node.callback_w self (twist_of (c * vx) (c * vy) wz)
  = Node.callback_w self (twist_of vx vy wz).
Proof.
  intros Hc Hm Hcx Hcy.
  assert (Hcc : 0 <= c * c - 1) by nra.
  assert (Hx : vx ^ 2 <= float_max).
  { apply Rle_trans with ((c * vx) ^ 2); [| exact Hcx].
    replace ((c * vx) ^ 2) with (c * c * vx ^ 2) by ring.
    pose proof (Rmult_le_pos _ _ Hcc (pow2_ge_0 vx)). lra. }
  assert (Hy : vy ^ 2 <= float_max).
  { apply Rle_trans with ((c * vy) ^ 2); [| exact Hcy].
    replace ((c * vy) ^ 2) with (c * c * vy ^ 2) by ring.
    pose proof (Rmult_le_pos _ _ Hcc (pow2_ge_0 vy)). lra. }
  assert (Hv : vLinear_value self (twist_of (c * vx) (c * vy) wz)
               = vLinear_value self (twist_of vx vy wz)).
  { rewrite !vLinear_clamped; [reflexivity | exact Hm |].
    cbn [twist_of linear x y]. rewrite magnitude_scaled by lra.
    pose proof (sqrt_pos (vx ^ 2 + vy ^ 2)). nra. }
  assert (Hh : Node.callback_Heading (twist_of (c * vx) (c * vy) wz)
               = Node.callback_Heading (twist_of vx vy wz)).
  { unfold Node.callback_Heading. cbn [twist_of linear x y].
    apply atan2_scale. lra. }
  assert (Hxv : xVel_value self (twist_of (c * vx) (c * vy) wz)
                = xVel_value self (twist_of vx vy wz))
    by (unfold xVel_value; now rewrite Hv, Hh).
  assert (Hyv : yVel_value self (twist_of (c * vx) (c * vy) wz)
                = yVel_value self (twist_of vx vy wz))
    by (unfold yVel_value; now rewrite Hv, Hh).
  pose proof (callback_xVel_ok self (twist_of vx vy wz) Hx Hy) as E1.
  pose proof (callback_yVel_ok self (twist_of vx vy wz) Hx Hy) as E2.
  pose proof (callback_xVel_ok self (twist_of (c * vx) (c * vy) wz) Hcx Hcy)
    as E3.
  pose proof (callback_yVel_ok self (twist_of (c * vx) (c * vy) wz) Hcx Hcy)
    as E4.
  rewrite Hxv in E3. rewrite Hyv in E4.
  split.
  - do 2 eexists. repeat split; eassumption.
  - unfold Node.callback_w. rewrite E1, E2, E3, E4. reflexivity.
Qed.

Lemma saturated_command_scale_free_witness :
  Node.callback_w default_node (twist_of (10 * 3) (10 * 4) 0)
  = Node.callback_w default_node (twist_of 3 4 0).
Proof.
  apply (saturated_command_scale_free default_node 10 3 4 0).
  - lra.
  - rewrite sqrt_3_4. cbn. lra.
  - apply small_sq_in_range. lra.
  - apply small_sq_in_range. lra.
Defined.

(** ** The opposite command *)

Lemma vLinear_opp (self : Node.MecanumCmd) (twist : Twist) :
  vLinear_value self (twist_opp twist) = vLinear_value self twist.
Proof.
  unfold vLinear_value. cbn [twist_opp twist_of linear x y].
  replace ((- x (linear twist)) ^ 2 + (- y (linear twist)) ^ 2)
    with (x (linear twist) ^ 2 + y (linear twist) ^ 2) by ring.
  reflexivity.
Qed.

Lemma recomposed_opp (self : Node.MecanumCmd) (twist : Twist) :
  0 <= Node.maxLinearVelocity self ->
  xVel_value self (twist_opp twist) = - xVel_value self twist /\
  yVel_value self (twist_opp twist) = - yVel_value self twist.
Proof.
  intros Hmax.
  assert (Hmm : sqrt (x (linear (twist_opp twist)) ^ 2
                      + y (linear (twist_opp twist)) ^ 2)
                = sqrt (x (linear twist) ^ 2 + y (linear twist) ^ 2)).
  { cbn [twist_opp twist_of linear x y]. f_equal. ring. }
  destruct (Req_dec_T (sqrt (x (linear twist) ^ 2 + y (linear twist) ^ 2)) 0)
    as [H0 | H0].
  - destruct (recomposed_unclamped self twist) as [-> ->]; [lra |].
    destruct (recomposed_unclamped self (twist_opp twist)) as [-> ->];
      [lra | split; reflexivity].
  - assert (Hm : 0 < sqrt (x (linear twist) ^ 2 + y (linear twist) ^ 2)).
    { pose proof (sqrt_pos (x (linear twist) ^ 2 + y (linear twist) ^ 2)).
      lra. }
    destruct (recomposed_scaled self twist Hm) as [-> ->].
    destruct (recomposed_scaled self (twist_opp twist)) as [-> ->];
      [rewrite Hmm; exact Hm |].
    rewrite Hmm, vLinear_opp. cbn [twist_opp twist_of linear x y].
    split; field; lra.
Qed.

Lemma sgn_opp (w : R) : sgn (- w) = - sgn w.
Proof.
  unfold sgn.
  destruct (Rlt_dec 0 w), (Rlt_dec w 0), (Rlt_dec 0 (- w)), (Rlt_dec (- w) 0);
    lra.
Qed.

Lemma opp_sq (a : R) : (- a) ^ 2 = a ^ 2.
Proof. ring. Qed.

Lemma yawVel_opp (self : Node.MecanumCmd) (twist : Twist) (yaw : R) :
  Node.callback_yawVel self twist = inr yaw ->
  Node.callback_yawVel self (twist_opp twist) = inr (- yaw).
Proof.
  intros Hy. destruct (yawVel_inv self twist yaw Hy) as [Hz Hm].
  assert (Hz' : z (angular (twist_opp twist)) ^ 2 <= float_max).
  { cbn [twist_opp twist_of angular z]. rewrite opp_sq. exact Hz. }
  destruct (Rgt_dec (z (angular twist) ^ 2) (Node.maxAngularVelocity self ^ 2))
    as [G | G].
  - rewrite (yawVel_clamped self twist Hz Hm G) in Hy. injection Hy as <-.
    rewrite (yawVel_clamped self (twist_opp twist) Hz' Hm)
      by (cbn [twist_opp twist_of angular z]; rewrite opp_sq; exact G).
    cbn [twist_opp twist_of angular z]. rewrite sgn_opp. f_equal. ring.
  - rewrite (yawVel_unclamped self twist Hz Hm G) in Hy. injection Hy as <-.
    rewrite (yawVel_unclamped self (twist_opp twist) Hz' Hm);
      [reflexivity |].
    cbn [twist_opp twist_of angular z]. rewrite opp_sq. exact G.
Qed.

(** The opposite command gives the opposite wheel speeds, clamps included,
    when the linear limit is not negative and the squares are in range. *)
Theorem opposite_command_opposite_speeds
    (self : Node.MecanumCmd) (twist : Twist) :
  Node.radius self <> 0 ->
  0 <= Node.maxLinearVelocity self ->
  squares_in_range self twist ->
  exists w,
    Node.callback_w self twist = inr w /\
    Node.callback_w self (twist_opp twist) = inr (map Ropp w).
Proof.
  intros Hr Hmax (Hx & Hy & Hz & Hm).
  destruct (yawVel_returns self twist Hz Hm) as [yaw Hyaw].
  rewrite (callback_w_in_range self twist yaw Hx Hy Hyaw).
  rewrite (callback_w_in_range self (twist_opp twist) (- yaw));
    [| cbn [twist_opp twist_of linear x]; rewrite opp_sq; exact Hx
     | cbn [twist_opp twist_of linear y]; rewrite opp_sq; exact Hy
     | exact (yawVel_opp self twist yaw Hyaw) ].
  destruct (recomposed_opp self twist Hmax) as [-> ->].
  rewrite !(Node_InverseKinematics_rows _ _ _ _ Hr).
  eexists. split; [reflexivity |].
  cbn [map]. entrywise ltac:(ring).
Qed.

Lemma opposite_command_opposite_speeds_witness :
  Node.radius default_node <> 0 /\
  0 <= Node.maxLinearVelocity default_node /\
  exists w,
    Node.callback_w default_node (twist_of 3 4 (-1)) = inr w /\
    Node.callback_w default_node (twist_opp (twist_of 3 4 (-1)))
    = inr (map Ropp w).
Proof.
  assert (Hr : Node.radius default_node <> 0) by (cbn; lra).
  assert (Hm : 0 <= Node.maxLinearVelocity default_node) by (cbn; lra).
  split; [exact Hr |]. split; [exact Hm |].
  apply (opposite_command_opposite_speeds default_node (twist_of 3 4 (-1)) Hr Hm).
  apply small_command_in_range; lra.
Defined.

(** ** Limits of the wrong sign *)

(** A negative [max_linear_vel] is not refused: every command whose squares
    are in range is then clamped, the command at rest becomes a motion
    along x, and a moving command is recomposed against its own
    direction. *)
Theorem negative_linear_limit_reverses
    (self : Node.MecanumCmd) (twist : Twist) :
  Node.maxLinearVelocity self < 0 ->
  x (linear twist) ^ 2 <= float_max -> y (linear twist) ^ 2 <= float_max ->
  Node.callback_vLinear self twist = inr (Node.maxLinearVelocity self) /\
  (x (linear twist) = 0 -> y (linear twist) = 0 ->
   Node.callback_xVel self twist = inr (Node.maxLinearVelocity self) /\
   Node.callback_yVel self twist = inr 0) /\
  (0 < sqrt (x (linear twist) ^ 2 + y (linear twist) ^ 2) ->
   exists c, c < 0 /\
     Node.callback_xVel self twist = inr (c * x (linear twist)) /\
     Node.callback_yVel self twist = inr (c * y (linear twist))).
Proof.
  intros Hneg Hx Hy.
  assert (Hv : vLinear_value self twist = Node.maxLinearVelocity self).
  { apply vLinear_clamped.
    pose proof (sqrt_pos (x (linear twist) ^ 2 + y (linear twist) ^ 2)). lra. }
  rewrite (callback_vLinear_ok self twist Hx Hy),
    (callback_xVel_ok self twist Hx Hy), (callback_yVel_ok self twist Hx Hy).
  split; [now rewrite Hv |]. split.
  - intros Ex Ey.
    unfold xVel_value, yVel_value, Node.callback_Heading, atan2.
    rewrite Hv, Ex, Ey.
    destruct (Rlt_dec 0 0) as [F | _]; [lra |].
    rewrite cos_0, sin_0. split; f_equal; ring.
  - intros Hm. destruct (recomposed_scaled self twist Hm) as [Ex Ey].
    exists (Node.maxLinearVelocity self
            / sqrt (x (linear twist) ^ 2 + y (linear twist) ^ 2)).
    rewrite Hv in Ex, Ey. rewrite Ex, Ey. split; [| split; reflexivity].
    unfold Rdiv. apply Rmult_neg_pos; [exact Hneg |].
    now apply Rinv_0_lt_compat.
Qed.

Lemma negative_linear_limit_reverses_witness :
  Node.callback_xVel (Node.mkMecanumCmd 0.31 0.30 0.075 (-1) (PI / 6) 15.0)
                     (twist_of 0 0 0) = inr (-1) /\
  Node.callback_yVel (Node.mkMecanumCmd 0.31 0.30 0.075 (-1) (PI / 6) 15.0)
                     (twist_of 0 0 0) = inr 0.
Proof.
  apply (negative_linear_limit_reverses
           (Node.mkMecanumCmd 0.31 0.30 0.075 (-1) (PI / 6) 15.0)
           (twist_of 0 0 0));
    [cbn [Node.maxLinearVelocity]; lra
    | exact zero_sq_in_range | exact zero_sq_in_range
    | reflexivity | reflexivity].
Defined.

(** A negative angular limit (a negative [angular_vel_div]) is not refused
    either: a yaw rate above the limit in absolute value, with squares in
    range, is then replaced by one of the opposite sign. *)
Theorem negative_angular_limit_reverses
    (self : Node.MecanumCmd) (twist : Twist) :
  Node.maxAngularVelocity self < 0 ->
  z (angular twist) ^ 2 <= float_max ->
  Node.maxAngularVelocity self ^ 2 <= float_max ->
  z (angular twist) ^ 2 > Node.maxAngularVelocity self ^ 2 ->
  exists yaw,
    Node.callback_yawVel self twist = inr yaw /\
    Rabs yaw = - Node.maxAngularVelocity self /\
    yaw * z (angular twist) < 0.
Proof.
  intros Hneg Hz Hm G. eexists.
  split; [exact (yawVel_clamped self twist Hz Hm G) |].
  unfold sgn.
  destruct (Rlt_dec 0 (z (angular twist))) as [P | P].
  - split; [rewrite Rabs_left by lra; ring | nra].
  - destruct (Rlt_dec (z (angular twist)) 0) as [N | N].
    + split; [rewrite Rabs_pos_eq by lra; ring | nra].
    + exfalso. assert (z (angular twist) = 0) by lra. nra.
Qed.

Lemma negative_angular_limit_reverses_witness :
  Node.maxAngularVelocity
    (Node.mkMecanumCmd 0.31 0.30 0.075 1 (PI / -6) 15.0) < 0 /\
  exists yaw,
    Node.callback_yawVel (Node.mkMecanumCmd 0.31 0.30 0.075 1 (PI / -6) 15.0)
                         (twist_of 0 0 1) = inr yaw /\
    Rabs yaw = - (PI / -6) /\ yaw * 1 < 0.
Proof.
  assert (Hn : Node.maxAngularVelocity
                 (Node.mkMecanumCmd 0.31 0.30 0.075 1 (PI / -6) 15.0) < 0).
  { cbn [Node.maxAngularVelocity]. pose proof PI_RGT_0. lra. }
  split; [exact Hn |].
  apply (negative_angular_limit_reverses
           (Node.mkMecanumCmd 0.31 0.30 0.075 1 (PI / -6) 15.0)
           (twist_of 0 0 1) Hn).
  - apply small_sq_in_range. cbn [twist_of angular z]. lra.
  - apply small_sq_in_range. cbn [Node.maxAngularVelocity].
    pose proof PI_4. pose proof PI_RGT_0. lra.
  - cbn [twist_of angular z Node.maxAngularVelocity].
    pose proof PI_over_6_sqr. pose proof PI_RGT_0. nra.
Defined.

(** * The feedback path *)

(** In range, [callback] of the feedback path clamps as the command path
    does and hands the same values to its own transform. *)
Lemma Test_callback_in_range (fb : Test.MecanumCmd) (cmd : Node.MecanumCmd)
    (twist : Twist) (yaw : R) :
  Test.maxLinearVelocity fb = Node.maxLinearVelocity cmd ->
  Test.maxAngularVelocity fb = Node.maxAngularVelocity cmd ->
  x (linear twist) ^ 2 <= float_max -> y (linear twist) ^ 2 <= float_max ->
  Node.callback_yawVel cmd twist = inr yaw ->
  Test.callback fb twist =
  (w <- Test.InverseKinematics fb (xVel_value cmd twist)
                               (yVel_value cmd twist) yaw ;;
   ret [ ("roboteq_driver_FLW/feedback", mkFeedback (getitem w 0));
         ("roboteq_driver_FRW/feedback", mkFeedback (getitem w 1));
         ("roboteq_driver_RLW/feedback", mkFeedback (getitem w 2));
         ("roboteq_driver_RRW/feedback", mkFeedback (getitem w 3)) ]).
Proof.
  intros Hl Ha Hx Hy Hyaw.
  destruct (yawVel_inv cmd twist yaw Hyaw) as [Hz Hm].
  rewrite (yawVel_in_range cmd twist Hz Hm) in Hyaw.
  unfold Test.callback. rewrite Hl, Ha.
  rewrite (py_sq_ok _ Hx), bind_inr, (py_sq_ok _ Hy), bind_inr,
    (py_sq_ok _ Hz), bind_inr, (py_sq_ok _ Hm), bind_inr.
  cbv zeta.
  destruct (Rgt_dec (z (angular twist) ^ 2) (Node.maxAngularVelocity cmd ^ 2)).
  - rewrite Hyaw, bind_inr. reflexivity.
  - injection Hyaw as <-. reflexivity.
Qed.

Lemma Test_callback_overflow (fb : Test.MecanumCmd) (twist : Twist) :
  x (linear twist) ^ 2 > float_max \/ y (linear twist) ^ 2 > float_max \/
  z (angular twist) ^ 2 > float_max \/
  Test.maxAngularVelocity fb ^ 2 > float_max ->
  Test.callback fb twist = inl OverflowError.
Proof.
  intros H. unfold Test.callback.
  destruct (py_sq_cases (x (linear twist))) as [[Hx ->] | [Hx ->]];
    [| reflexivity].
  rewrite bind_inr.
  destruct (py_sq_cases (y (linear twist))) as [[Hy ->] | [Hy ->]];
    [| reflexivity].
  rewrite bind_inr. cbv zeta.
  destruct (py_sq_cases (z (angular twist))) as [[Hz ->] | [Hz ->]];
    [| reflexivity].
  rewrite bind_inr.
  destruct (py_sq_cases (Test.maxAngularVelocity fb)) as [[Hm ->] | [Hm ->]];
    [| reflexivity].
  exfalso. lra.
Qed.

(** The two nodes side by side: with the same geometry and limits, a radius
    that is not zero and a command whose squares are in range, both publish
    four messages, and each setpoint of the command path is
    [-(gb_ratio / 2)] times the measured velocity the feedback path
    publishes for the same wheel. *)
Theorem setpoints_scale_feedback
    (cmd : Node.MecanumCmd) (fb : Test.MecanumCmd) (twist : Twist) :
  Node.alpha cmd = Test.alpha fb ->
  Node.beta cmd = Test.beta fb ->
  Node.radius cmd = Test.radius fb ->
  Test.maxLinearVelocity fb = Node.maxLinearVelocity cmd ->
  Test.maxAngularVelocity fb = Node.maxAngularVelocity cmd ->
  Node.radius cmd <> 0 ->
  squares_in_range cmd twist ->
  exists c0 c1 c2 c3 f0 f1 f2 f3,
    Node.callback cmd twist =
    inr [ ("roboteq_driver_FLW/cmd", mkCommand 0 c0);
          ("roboteq_driver_FRW/cmd", mkCommand 0 c1);
          ("roboteq_driver_RLW/cmd", mkCommand 0 c2);
          ("roboteq_driver_RRW/cmd", mkCommand 0 c3) ] /\
    Test.callback fb twist =
    inr [ ("roboteq_driver_FLW/feedback", mkFeedback f0);
          ("roboteq_driver_FRW/feedback", mkFeedback f1);
          ("roboteq_driver_RLW/feedback", mkFeedback f2);
          ("roboteq_driver_RRW/feedback", mkFeedback f3) ] /\
    c0 = - (Node.gb_ratio cmd / 2) * f0 /\ c1 = - (Node.gb_ratio cmd / 2) * f1 /\
    c2 = - (Node.gb_ratio cmd / 2) * f2 /\ c3 = - (Node.gb_ratio cmd / 2) * f3.
Proof.
  intros Ha Hb Hr Hl Hw Hnz (Hx & Hy & Hz & Hm).
  assert (Hnz' : Test.radius fb <> 0) by (rewrite <- Hr; exact Hnz).
  destruct (yawVel_returns cmd twist Hz Hm) as [yaw Hyaw].
  rewrite (Test_callback_in_range fb cmd twist yaw Hl Hw Hx Hy Hyaw).
  unfold Node.callback.
  rewrite (callback_w_in_range cmd twist yaw Hx Hy Hyaw).
  rewrite (Node_InverseKinematics_rows _ _ _ _ Hnz),
    (Test_InverseKinematics_rows _ _ _ _ Hnz'), !bind_inr.
  do 8 eexists. split; [reflexivity |]. split; [reflexivity |].
  cbn [getitem nth]. rewrite Ha, Hb, Hr.
  repeat split; field; exact Hnz'.
Qed.

Lemma setpoints_scale_feedback_witness :
  exists c0 c1 c2 c3 f0 f1 f2 f3,
    Node.callback default_node (twist_of 2 (-1) 3) =
    inr [ ("roboteq_driver_FLW/cmd", mkCommand 0 c0);
          ("roboteq_driver_FRW/cmd", mkCommand 0 c1);
          ("roboteq_driver_RLW/cmd", mkCommand 0 c2);
          ("roboteq_driver_RRW/cmd", mkCommand 0 c3) ] /\
    Test.callback Test.init (twist_of 2 (-1) 3) =
    inr [ ("roboteq_driver_FLW/feedback", mkFeedback f0);
          ("roboteq_driver_FRW/feedback", mkFeedback f1);
          ("roboteq_driver_RLW/feedback", mkFeedback f2);
          ("roboteq_driver_RRW/feedback", mkFeedback f3) ] /\
    c0 = - (15.0 / 2) * f0 /\ c1 = - (15.0 / 2) * f1 /\
    c2 = - (15.0 / 2) * f2 /\ c3 = - (15.0 / 2) * f3.
Proof.
  apply (setpoints_scale_feedback default_node Test.init (twist_of 2 (-1) 3));
    try reflexivity;
    try (apply small_command_in_range; lra);
    cbn [default_node Test.init Node.beta Test.beta Node.radius Test.radius];
    lra.
Defined.

Lemma feedback_abs_bound (r s d B : R) :
  0 < r -> (s = 1 \/ s = -1) -> Rabs d <= B ->
  Rabs (s * (1 / r) * d) <= 1 / r * B.
Proof.
  intros Hr Hs Hd.
  assert (Hc : 0 < 1 / r) by (apply Rdiv_lt_0_compat; lra).
  replace (s * (1 / r) * d) with (1 / r * (s * d)) by ring.
  rewrite Rabs_mult, (Rabs_pos_eq (1 / r)) by lra.
  apply Rmult_le_compat_l; [lra |].
  destruct Hs as [-> | ->].
  - now rewrite Rmult_1_l.
  - replace (-1 * d) with (- d) by ring. now rewrite Rabs_Ropp.
Qed.

(** The feedback node as it is written, with its own constants. A command
    whose three squares are in range gets four measured velocities, each at
    most [(sqrt 2 + 0.61 * pi/6) / 0.075] in absolute value; any other
    command makes [callback] raise [OverflowError]. It never raises
    [ZeroDivisionError]. *)
Theorem feedback_bounded (twist : Twist) :
  (x (linear twist) ^ 2 <= float_max /\ y (linear twist) ^ 2 <= float_max /\
   z (angular twist) ^ 2 <= float_max ->
   exists f0 f1 f2 f3,
     Test.callback Test.init twist =
     inr [ ("roboteq_driver_FLW/feedback", mkFeedback f0);
           ("roboteq_driver_FRW/feedback", mkFeedback f1);
           ("roboteq_driver_RLW/feedback", mkFeedback f2);
           ("roboteq_driver_RRW/feedback", mkFeedback f3) ] /\
     Forall (fun f => Rabs f <= (sqrt 2 + 0.61 * (PI / 6)) / 0.075)
            [f0; f1; f2; f3]) /\
  (x (linear twist) ^ 2 > float_max \/ y (linear twist) ^ 2 > float_max \/
   z (angular twist) ^ 2 > float_max ->
   Test.callback Test.init twist = inl OverflowError).
Proof.
  split; [| intros H; apply Test_callback_overflow; tauto].
  intros (Hx & Hy & Hz).
  destruct (yawVel_returns default_node twist Hz default_limit_in_range)
    as [yaw Hy'].
  rewrite (Test_callback_in_range Test.init default_node twist yaw
             eq_refl eq_refl Hx Hy Hy').
  assert (Hpi : 0 <= Node.maxAngularVelocity default_node)
    by (cbn [default_node Node.maxAngularVelocity]; pose proof PI_RGT_0; lra).
  assert (Hl : 0 <= Node.maxLinearVelocity default_node)
    by (cbn [default_node Node.maxLinearVelocity]; lra).
  pose proof (yawVel_bounded default_node twist yaw Hpi Hy') as Hyaw.
  pose proof (recomposed_sqr default_node twist) as Hsq.
  pose proof (vLinear_nonneg default_node twist Hl) as Hv0.
  pose proof (vLinear_le_max default_node twist) as Hv1.
  pose proof (abs_pair_bound _ _ _ Hsq Hv0) as Hxy.
  assert (Hs2 : 0 <= sqrt 2) by apply sqrt_pos.
  cbn [default_node Node.maxAngularVelocity Node.maxLinearVelocity] in Hyaw, Hv1.
  set (X := xVel_value default_node twist) in *.
  set (Y := yVel_value default_node twist) in *.
  assert (HB : Rabs X + Rabs Y + (0.31 + 0.3) * Rabs yaw
               <= sqrt 2 + 0.61 * (PI / 6)).
  { pose proof (Rabs_pos yaw). nra. }
  assert (Hr : Test.radius Test.init <> 0)
    by (cbn [Test.init Test.radius]; lra).
  rewrite (Test_InverseKinematics_rows _ _ _ _ Hr), bind_inr.
  do 4 eexists. split; [reflexivity |].
  cbn [getitem nth Test.init Test.radius Test.alpha Test.beta].
  replace ((sqrt 2 + 0.61 * (PI / 6)) / 0.075)
    with (1 / (0.15 / 2) * (sqrt 2 + 0.61 * (PI / 6))) by lra.
  repeat apply Forall_cons; [| | | | apply Forall_nil];
    (apply feedback_abs_bound; [lra | lra |]);
    (eapply Rle_trans; [| exact HB]).
  - replace (1 * X + -1 * Y + -1 * (0.31 + 0.3) * yaw)
      with (X + -1 * Y + -1 * (0.31 + 0.3) * yaw) by ring.
    apply row_abs_bound; [auto | auto | lra].
  - replace (1 * X + 1 * Y + (0.31 + 0.3) * yaw)
      with (X + 1 * Y + 1 * (0.31 + 0.3) * yaw) by ring.
    apply row_abs_bound; [auto | auto | lra].
  - replace (1 * X + 1 * Y + -1 * (0.31 + 0.3) * yaw)
      with (X + 1 * Y + -1 * (0.31 + 0.3) * yaw) by ring.
    apply row_abs_bound; [auto | auto | lra].
  - replace (1 * X + -1 * Y + (0.31 + 0.3) * yaw)
      with (X + -1 * Y + 1 * (0.31 + 0.3) * yaw) by ring.
    apply row_abs_bound; [auto | auto | lra].
Qed.

Lemma feedback_bounded_witness :
  (exists f0 f1 f2 f3,
     Test.callback Test.init (twist_of 100 (-200) 50) =
     inr [ ("roboteq_driver_FLW/feedback", mkFeedback f0);
           ("roboteq_driver_FRW/feedback", mkFeedback f1);
           ("roboteq_driver_RLW/feedback", mkFeedback f2);
           ("roboteq_driver_RRW/feedback", mkFeedback f3) ] /\
     Forall (fun f => Rabs f <= (sqrt 2 + 0.61 * (PI / 6)) / 0.075)
            [f0; f1; f2; f3]) /\
  Test.callback Test.init (twist_of (2 ^ 600) 0 0) = inl OverflowError.
Proof.
  split.
  - apply (proj1 (feedback_bounded (twist_of 100 (-200) 50))).
    cbn [twist_of linear angular x y z].
    repeat split; apply small_sq_in_range; lra.
  - apply (proj2 (feedback_bounded (twist_of (2 ^ 600) 0 0))).
    left. exact huge_sq_out_of_range.
Defined.
